(** * errors.go: annotation of Go error values with messages and stack traces

    A shallow embedding of package [errors] (file errors.go) and a
    verification of its annotation / unwrap mechanism.

    Go values are modelled as follows.
    - An interface value of type [error] is [option errval]: [None] is the
      nil interface, [Some e] a dynamic value.
    - Pointer-typed dynamic values ([*errors.errorString], [*fmt.wrapError],
      [*stack], values of caller-defined types) carry the address they were
      allocated at, so that Rocq's [=] on [errval] is Go's [==] on [error].
      The struct types [withStack] and [formatted] are compared field by
      field in Go, hence carry no address.
    - Allocation and the stack snapshots taken by [callers] are the only
      effects; they are threaded through a state monad over [world].
    - The goroutine's call stack is an explicit argument [cs] of every
      exported function that can capture it: the return addresses of the
      active calls, innermost first, beginning at the call of the exported
      function itself. *)

From Stdlib Require Import String Ascii List ZArith NArith Lia Bool Arith.
From Equations Require Import Equations.
Import ListNotations.

Set Warnings "-register-all".

Local Open Scope string_scope.
Local Open Scope list_scope.

(** ** Data model *)

Definition addr := N.
Definition uintptr := N.
Definition rune := Z.

(** [type Frame uintptr] and [type StackTrace []Frame]. *)
Definition Frame := uintptr.
Definition StackTrace := list Frame.

(** A [*stack]: the address of the slice header together with the program
    counters it holds ([type stack []uintptr]); never mutated once built. *)
Record stack : Type := mkStack { stack_at : addr; pcs : list uintptr }.

(** The dynamic (non-nil) values an [error] can hold.
    [foreign] stands for a value of a caller-defined type: it always has
    [Error() string], and optionally [StackTrace() StackTrace],
    [Format(fmt.State, rune)] and [Unwrap() error].  Its [Format] is given as
    the text written for a '+' flag and a verb.  Not modelled: types with an
    [As(interface{}) bool] or [Unwrap() []error] method of their own, and
    methods that panic. *)
Inductive errval : Type :=
| errorString (p : addr) (s : string)
| wrapError (p : addr) (msg : string) (err : errval)
| withStack (err : errval) (st : stack)
| formatted (err : errval)
| foreign (p : addr) (msg : string) (trace : option StackTrace)
          (fmt : option (bool -> rune -> string)) (inner : option errval).

Definition error := option errval.

(** ** Allocation and capture: the state monad *)

Record world : Type := mkWorld {
  brk : addr;                      (* next free address *)
  snapshots : list (list uintptr)  (* call stacks captured so far, newest first *)
}.

Definition M (A : Type) : Type := world -> A * world.

Definition ret {A} (a : A) : M A := fun w => (a, w).

Definition bind {A B} (m : M A) (k : A -> M B) : M B :=
  fun w => let (a, w') := m w in k a w'.

Notation "x <- m ;; k" := (bind m (fun x => k))
  (at level 61, m at next level, right associativity).

Definition alloc : M addr :=
  fun w => (brk w, mkWorld (N.succ (brk w)) (snapshots w)).

(** ** Methods *)

(** [Error() string].  [withStack] and [formatted] embed an [error], whose
    [Error] method is promoted. *)
Fixpoint Error (e : errval) : string :=
  match e with
  | errorString _ s => s
  | wrapError _ msg _ => msg
  | withStack err _ => Error err
  | formatted err => Error err
  | foreign _ msg _ _ _ => msg
  end.

(** [func (s *stack) StackTrace() StackTrace] converts each program counter
    to a [Frame]. *)
Definition stack_StackTrace (s : stack) : StackTrace := pcs s.

(** The method [StackTrace() StackTrace], where the dynamic type has it:
    [withStack] gets it promoted from the embedded [*stack]; [formatted]
    embeds the interface [error] and so does not. *)
Definition StackTrace_method (e : errval) : option StackTrace :=
  match e with
  | withStack _ st => Some (stack_StackTrace st)
  | foreign _ _ trace _ _ => trace
  | _ => None
  end.

(** The method [Unwrap() error], where the dynamic type has it. *)
Definition Unwrap_method (e : errval) : option error :=
  match e with
  | errorString _ _ => None
  | wrapError _ _ err => Some (Some err)
  | withStack err _ => Some (Some err)    (* func (w withStack) Unwrap() error { return w.error } *)
  | formatted err => Some (Some err)      (* func (f formatted) Unwrap() error { return f.error } *)
  | foreign _ _ _ _ inner => Some inner
  end.

(** Modelled from the spec: [Unwrap] is defined in go113.go, which is not
    part of the sources; it is "one unwrap step to the node's cause", the
    standard library's [errors.Unwrap]: the result of the [Unwrap] method
    when the value has one, nil otherwise. *)
Definition Unwrap (err : error) : error :=
  match err with
  | None => None
  | Some e => match Unwrap_method e with
              | Some r => r
              | None => None
              end
  end.

(** The unwrap chain of a value, outermost node first. *)
Fixpoint chain (e : errval) : list errval :=
  e :: match e with
       | errorString _ _ => []
       | wrapError _ _ err => chain err
       | withStack err _ => chain err
       | formatted err => chain err
       | foreign _ _ _ _ inner =>
           match inner with Some err => chain err | None => [] end
       end.

Definition chain_of (err : error) : list errval :=
  match err with Some e => chain e | None => [] end.

(** Modelled from the spec: [As] is defined in go113.go, which is not part
    of the sources; it "walks err's cause chain" and stops at the first node
    that implements the target interface, the standard library's
    [errors.As] for a target of interface type.  [implements] tells whether
    a dynamic value is assignable to the target; the result is the value
    stored in the target, [None] when [As] returns false. *)
Definition As (implements : errval -> bool) (err : error) : option errval :=
  find implements (chain_of err).

(** [interface { error; StackTrace() StackTrace }] *)
Definition stackTracer (e : errval) : bool :=
  match StackTrace_method e with Some _ => true | None => false end.

Definition inspect {A} (a : A) : {b : A | a = b} := exist _ a eq_refl.

(** [func Cause(err error) error]: the [for] loop, one iteration per unfolding. *)
Equations? Cause (err : error) : error by wf (length (chain_of err)) lt :=
Cause err with As stackTracer err := {
  | Some st => Some st
  | None with inspect (Unwrap err) := {
      | exist _ None _ => err
      | exist _ (Some e) H => Cause (Some e) } }.
Proof.
  destruct err as [x|]; [|discriminate].
  destruct x as [| | | |p m t f [i|]]; simpl in H |- *;
    try discriminate; injection H as <-; lia.
Qed.

(** ** Go's quoting of strings: [utf8.DecodeRuneInString], [strconv.Quote]

    A Go string is a sequence of bytes, here a [string]; a byte is an
    [ascii]; runes are code points in [Z]. *)

Definition dquote : ascii := "034"%char.
Definition backslash : ascii := "092"%char.

Definition byte_val (c : ascii) : Z := Z.of_N (N_of_ascii c).

(** The conversion [byte(x)]: the low eight bits. *)
Definition byte (x : Z) : ascii :=
  Ascii (Z.testbit x 0) (Z.testbit x 1) (Z.testbit x 2) (Z.testbit x 3)
        (Z.testbit x 4) (Z.testbit x 5) (Z.testbit x 6) (Z.testbit x 7).

Definition between (lo hi x : Z) : bool := ((lo <=? x) && (x <=? hi))%Z.

Fixpoint drop (n : nat) (s : string) : string :=
  match n, s with
  | S n', String _ rest => drop n' rest
  | _, _ => s
  end.

Module utf8.

Local Open Scope Z_scope.

Definition RuneError : rune := 0xFFFD.
Definition RuneSelf : rune := 0x80.
Definition MaxRune : rune := 0x10FFFF.

(** The table [first] with [acceptRanges]: for a leading byte of a
    multi-byte sequence, the length of the sequence and the range its second
    byte must lie in; [None] for the ASCII bytes and the invalid ones. *)
Definition first (s0 : Z) : option (nat * (Z * Z)) :=
  if between 0xC2 0xDF s0 then Some (2%nat, (0x80, 0xBF))
  else if (s0 =? 0xE0) then Some (3%nat, (0xA0, 0xBF))
  else if between 0xE1 0xEC s0 then Some (3%nat, (0x80, 0xBF))
  else if (s0 =? 0xED) then Some (3%nat, (0x80, 0x9F))
  else if between 0xEE 0xEF s0 then Some (3%nat, (0x80, 0xBF))
  else if (s0 =? 0xF0) then Some (4%nat, (0x90, 0xBF))
  else if between 0xF1 0xF3 s0 then Some (4%nat, (0x80, 0xBF))
  else if (s0 =? 0xF4) then Some (4%nat, (0x80, 0x8F))
  else None.

Definition cont (x : Z) : bool := between 0x80 0xBF x.

(** [func DecodeRuneInString(s string) (rune, int)] *)
Definition DecodeRuneInString (s : string) : rune * nat :=
  match s with
  | EmptyString => (RuneError, 0%nat)
  | String c0 rest =>
      let s0 := byte_val c0 in
      match first s0 with
      | None => if (s0 <? RuneSelf)%Z then (s0, 1%nat) else (RuneError, 1%nat)
      | Some (sz, (lo, hi)) =>
          if (String.length s <? sz)%nat then (RuneError, 1%nat) else
          match rest with
          | EmptyString => (RuneError, 1%nat)
          | String c1 rest1 =>
              let s1 := byte_val c1 in
              if negb (between lo hi s1) then (RuneError, 1%nat) else
              if (sz <=? 2)%nat then
                (Z.lor (Z.shiftl (Z.land s0 0x1F) 6) (Z.land s1 0x3F), 2%nat)
              else
              match rest1 with
              | EmptyString => (RuneError, 1%nat)
              | String c2 rest2 =>
                  let s2 := byte_val c2 in
                  if negb (cont s2) then (RuneError, 1%nat) else
                  if (sz <=? 3)%nat then
                    (Z.lor (Z.lor (Z.shiftl (Z.land s0 0x0F) 12)
                                  (Z.shiftl (Z.land s1 0x3F) 6))
                           (Z.land s2 0x3F), 3%nat)
                  else
                  match rest2 with
                  | EmptyString => (RuneError, 1%nat)
                  | String c3 _ =>
                      let s3 := byte_val c3 in
                      if negb (cont s3) then (RuneError, 1%nat) else
                      (Z.lor (Z.lor (Z.lor (Z.shiftl (Z.land s0 0x07) 18)
                                           (Z.shiftl (Z.land s1 0x3F) 12))
                                    (Z.shiftl (Z.land s2 0x3F) 6))
                             (Z.land s3 0x3F), 4%nat)
                  end
              end
          end
      end
  end.

(** [func ValidRune(r rune) bool] *)
Definition ValidRune (r : rune) : bool :=
  between 0 0xD7FF r || between 0xE000 MaxRune r.

Definition encode3 (r : rune) : string :=
  String (byte (Z.lor 0xE0 (Z.shiftr r 12)))
    (String (byte (Z.lor 0x80 (Z.land (Z.shiftr r 6) 0x3F)))
       (String (byte (Z.lor 0x80 (Z.land r 0x3F))) EmptyString)).

(** [func AppendRune(p []byte, r rune) []byte], as the bytes appended. *)
Definition AppendRune (r : rune) : string :=
  if between 0 0x7F r then String (byte r) EmptyString
  else if between 0 0x7FF r then
    String (byte (Z.lor 0xC0 (Z.shiftr r 6)))
      (String (byte (Z.lor 0x80 (Z.land r 0x3F))) EmptyString)
  else if negb (ValidRune r) then encode3 RuneError
  else if (r <=? 0xFFFF) then encode3 r
  else
    String (byte (Z.lor 0xF0 (Z.shiftr r 18)))
      (String (byte (Z.lor 0x80 (Z.land (Z.shiftr r 12) 0x3F)))
         (String (byte (Z.lor 0x80 (Z.land (Z.shiftr r 6) 0x3F)))
            (String (byte (Z.lor 0x80 (Z.land r 0x3F))) EmptyString))).

End utf8.

Module strconv.

Local Open Scope Z_scope.

Section Tables.

(** The table-driven part of [strconv.IsPrint], for runes above U+00FF. *)
Variable isPrint_table : rune -> bool.

(** [func IsPrint(r rune) bool] *)
Definition IsPrint (r : rune) : bool :=
  if (r <=? 0xFF) then
    if between 0x20 0x7E r then true
    else if between 0xA1 0xFF r then negb (r =? 0xAD)
    else false
  else isPrint_table r.

(** [lowerhex[i]] *)
Definition lowerhex (i : Z) : ascii :=
  nth (Z.to_nat i) (list_ascii_of_string "0123456789abcdef") "0"%char.

(** [lowerhex[r>>uint(s)&0xF]] for each shift [s] of a list. *)
Fixpoint hexdigits (r : rune) (shifts : list Z) : string :=
  match shifts with
  | [] => EmptyString
  | sh :: rest => String (lowerhex (Z.land (Z.shiftr r sh) 0xF)) (hexdigits r rest)
  end.

(** [appendEscapedRune] for the double quote, with [ASCIIonly] and
    [graphicOnly] off, as the bytes appended. *)
Definition appendEscapedRune (r : rune) : string :=
  if (r =? byte_val dquote)%Z || (r =? byte_val backslash)%Z then
    String backslash (String (byte r) EmptyString)
  else if IsPrint r then utf8.AppendRune r
  else if (r =? 7) then "\a"
  else if (r =? 8) then "\b"
  else if (r =? 12) then "\f"
  else if (r =? 10) then "\n"
  else if (r =? 13) then "\r"
  else if (r =? 9) then "\t"
  else if (r =? 11) then "\v"
  else if (r <? 0x20) || (r =? 0x7F) then
    "\x" ++ hexdigits (byte_val (byte r)) [4; 0]
  else if negb (utf8.ValidRune r) || (r <? 0x10000) then
    "\u" ++ hexdigits (if utf8.ValidRune r then r else utf8.RuneError) [12; 8; 4; 0]
  else
    "\U" ++ hexdigits r [28; 24; 20; 16; 12; 8; 4; 0].

(** The loop of [appendQuotedWith]: [for width := 0; len(s) > 0; s = s[width:]].
    Each iteration consumes at least one byte, so [length s] iterations
    always suffice. *)
Fixpoint quote_loop (fuel : nat) (s : string) : string :=
  match fuel, s with
  | S fuel', String c0 _ =>
      let r0 := byte_val c0 in
      let (r, width) :=
        if utf8.RuneSelf <=? r0 then utf8.DecodeRuneInString s else (r0, 1%nat) in
      (if (width =? 1)%nat && (r =? utf8.RuneError) then
         "\x" ++ hexdigits r0 [4; 0]
       else appendEscapedRune r)
      ++ quote_loop fuel' (drop width s)
  | _, _ => EmptyString
  end.

(** [func Quote(s string) string] *)
Definition Quote (s : string) : string :=
  String dquote (quote_loop (String.length s) s ++ String dquote EmptyString).

End Tables.

End strconv.

(** Every quotation mark is the byte right after a backslash that opens an
    escape, and no escape is left open. *)
Fixpoint well_escaped (s : string) : bool :=
  match s with
  | EmptyString => true
  | String c rest =>
      if Ascii.eqb c backslash then
        match rest with
        | EmptyString => false
        | String _ rest' => well_escaped rest'
        end
      else if Ascii.eqb c dquote then false
      else well_escaped rest
  end.

(** Dropping the backslash of each two-byte escape. *)
Fixpoint unbackslash (s : string) : string :=
  match s with
  | EmptyString => EmptyString
  | String c rest =>
      if Ascii.eqb c backslash then
        match rest with
        | EmptyString => EmptyString
        | String d rest' => String d (unbackslash rest')
        end
      else String c (unbackslash rest)
  end.

(** The text is made of printable ASCII bytes only. *)
Fixpoint printable_ascii (s : string) : bool :=
  match s with
  | EmptyString => true
  | String c rest => between 0x20%Z 0x7E%Z (byte_val c) && printable_ascii rest
  end.

(** Reading a quoted body back, after [strconv.Unquote]: the escapes
    [strconv.Quote] writes are decoded ([\x] gives a byte, [\u] and [\U] the
    UTF-8 encoding of a rune), any other byte stands for itself, and a bare
    quotation mark or an escape cut short is refused. *)
Definition hexval (c : ascii) : option Z :=
  let v := byte_val c in
  if between 48 57 v then Some (v - 48)%Z
  else if between 97 102 v then Some (v - 87)%Z
  else if between 65 70 v then Some (v - 55)%Z
  else None.

Fixpoint hexvals (acc : Z) (digits : list ascii) : option Z :=
  match digits with
  | [] => Some acc
  | d :: rest =>
      match hexval d with
      | Some v => hexvals (acc * 16 + v)%Z rest
      | None => None
      end
  end.

Definition simple_escape (k : ascii) : option ascii :=
  if Ascii.eqb k "a" then Some "007"%char
  else if Ascii.eqb k "b" then Some "008"%char
  else if Ascii.eqb k "f" then Some "012"%char
  else if Ascii.eqb k "n" then Some "010"%char
  else if Ascii.eqb k "r" then Some "013"%char
  else if Ascii.eqb k "t" then Some "009"%char
  else if Ascii.eqb k "v" then Some "011"%char
  else if Ascii.eqb k backslash then Some backslash
  else if Ascii.eqb k dquote then Some dquote
  else None.

Definition rune_bytes (digits : list ascii) : option string :=
  match hexvals 0 digits with
  | Some v => if utf8.ValidRune v then Some (utf8.AppendRune v) else None
  | None => None
  end.

Definition prepend (p rest : option string) : option string :=
  match p, rest with
  | Some a, Some b => Some (a ++ b)%string
  | _, _ => None
  end.

Fixpoint unquote (s : string) : option string :=
  match s with
  | EmptyString => Some EmptyString
  | String c rest =>
      if Ascii.eqb c backslash then
        match rest with
        | EmptyString => None
        | String k rest1 =>
            match simple_escape k with
            | Some b => prepend (Some (String b EmptyString)) (unquote rest1)
            | None =>
                if Ascii.eqb k "x" then
                  match rest1 with
                  | String h1 (String h2 rest2) =>
                      prepend (option_map (fun v => String (byte v) EmptyString)
                                 (hexvals 0 [h1; h2]))
                              (unquote rest2)
                  | _ => None
                  end
                else if Ascii.eqb k "u" then
                  match rest1 with
                  | String h1 (String h2 (String h3 (String h4 rest4))) =>
                      prepend (rune_bytes [h1; h2; h3; h4]) (unquote rest4)
                  | _ => None
                  end
                else if Ascii.eqb k "U" then
                  match rest1 with
                  | String h1 (String h2 (String h3 (String h4
                      (String h5 (String h6 (String h7 (String h8 rest8))))))) =>
                      prepend (rune_bytes [h1; h2; h3; h4; h5; h6; h7; h8])
                              (unquote rest8)
                  | _ => None
                  end
                else None
            end
        end
      else if Ascii.eqb c dquote then None
      else prepend (Some (String c EmptyString)) (unquote rest)
  end.

(** The first [n] bytes of a string. *)
Fixpoint take (n : nat) (s : string) : string :=
  match n, s with
  | S n', String c rest => String c (take n' rest)
  | _, _ => EmptyString
  end.

(** A byte that is neither the quotation mark nor the backslash. *)
Definition plain_byte (c : ascii) : bool :=
  negb (Ascii.eqb c backslash) && negb (Ascii.eqb c dquote).

Fixpoint plain (s : string) : bool :=
  match s with
  | EmptyString => true
  | String c rest => plain_byte c && plain rest
  end.

(** What one iteration of the quoting loop appends: bytes that need no
    escape, or one backslash escape. *)
Inductive piece : string -> Prop :=
| piece_plain (p : string) : plain p = true -> piece p
| piece_escape (c : ascii) (p : string) :
    plain p = true -> piece (String backslash (String c p)).

(** ** A sample environment, for the examples

    A formatting engine for formats without verbs, a [*stack] that prints
    its frames for %+v only, no printable rune above U+00FF, and the code of
    errors.go loaded at 0x400000. *)

Definition sample_Sprintf (format : string) (args : list string) : string :=
  format.

Definition sample_Errorf (format : string) (args : list string) (p : addr) : errval :=
  errorString p format.

Definition sample_table (r : rune) : bool := false.

Definition sample_stack_Format (st : stack) (plus : bool) (verb : rune) : string :=
  if plus && (verb =? 118)%Z then " [frames]" else "".

Definition sample_pc (line : nat) : uintptr := (0x400000 + N.of_nat line)%N.

(** [errors.New("disk full")] of the standard library, allocated at address
    0, and the world right after. *)
Definition sample_leaf : errval := errorString 0%N "disk full".
Definition sample_world : world := mkWorld 1%N [].

(** Two call stacks of the calling program. *)
Definition in_main : list uintptr := [0x500010; 0x500400]%N.
Definition in_load : list uintptr := [0x500100; 0x500020; 0x500400]%N.

(** ** What the package takes from outside errors.go *)

Section Package.

(** [interface{}], the type of the arguments of a format string. *)
Variable any : Type.

(** [fmt.Sprintf(format, args...)]: the formatting engine. *)
Variable Sprintf : string -> list any -> string.

(** [fmt.Errorf(format, args...)], as the error it returns when it
    allocates it at a given address. *)
Variable fmt_Errorf : string -> list any -> addr -> errval.

(** The Unicode tables behind [strconv.IsPrint]. *)
Variable isPrint_table : rune -> bool.

(** [strconv.Quote], which [fmt] applies for the verb %q without flags. *)
Definition Quote : string -> string := strconv.Quote isPrint_table.

(** [func (s *stack) Format(st fmt.State, verb rune)] of stack.go, as the
    text written for a '+' flag and a verb. *)
Variable stack_Format : stack -> bool -> rune -> string.

(** The return address of the call made on a given line of errors.go: what
    the runtime reports for the frame of an exported function that calls
    [ensureStack]. *)
Variable return_pc : nat -> uintptr.

(** Modelled from the spec: [callers] is defined in stack.go, which is not
    part of the sources.  "Returns a finite ordered sequence of CallSite
    records describing the active call stack, omitting the innermost [skip]
    frames", the recorder's own frame being excluded: [sites] are the call
    sites active in the function that calls [callers], innermost first.  The
    snapshot is a fresh [*stack]. *)
Definition callers (skip : nat) (sites : list uintptr) : M stack :=
  fun w => let snap := skipn skip sites in
           (mkStack (brk w) snap,
            mkWorld (N.succ (brk w)) (snap :: snapshots w)).

(** [errors.New] of the standard library: a fresh [*errorString]. *)
Definition errors_New (text : string) : M errval :=
  p <- alloc ;; ret (errorString p text).

(** ** Formatting *)

Definition rune_of (c : ascii) : rune := Z.of_N (N_of_ascii c).

(** The method [Format(fmt.State, rune)]: declared on [formatted] and on
    [*stack], hence promoted to [withStack]. *)
Definition has_Format (e : errval) : bool :=
  match e with
  | withStack _ _ => true
  | formatted _ => true
  | foreign _ _ _ (Some _) _ => true
  | _ => false
  end.

(** [interface { Format(fmt.State, rune); StackTrace() StackTrace }] *)
Definition formatTracer (e : errval) : bool := has_Format e && stackTracer e.

(** [st.Format(s, verb)] for the value [As] stored in a [formatTracer]. *)
Definition formatTracer_Format (st : errval) : bool -> rune -> string :=
  match st with
  | withStack _ s => stack_Format s
  | foreign _ _ _ (Some f) _ => f
  | _ => fun _ _ => ""
  end.

(** [func (f formatted) Format(s fmt.State, verb rune)], as the text written
    to [s]; [plus] is [s.Flag('+')], [err] is [f.error]. *)
Definition formatted_Format (err : errval) (plus : bool) (verb : rune) : string :=
  if Z.eqb verb (rune_of "v") then
    if plus then
      Error err ++
      match As formatTracer (Some err) with
      | Some st => formatTracer_Format st plus verb
      | None => ""
      end
    else Error err                      (* fallthrough *)
  else if Z.eqb verb (rune_of "s") then Error err
  else if Z.eqb verb (rune_of "q") then Quote (Error err)
  else "".

Definition Format_method (e : errval) : option (bool -> rune -> string) :=
  match e with
  | withStack _ st => Some (stack_Format st)
  | formatted err => Some (formatted_Format err)
  | foreign _ _ _ fmt _ => fmt
  | _ => None
  end.

(** How [fmt] prints an error operand for a verb among %v, %s and %q given
    without flags: through its [Format] method when it is a [fmt.Formatter],
    else from [Error()]. *)
Definition fmt_operand (verb : rune) (e : errval) : string :=
  match Format_method e with
  | Some f => f false verb
  | None => if Z.eqb verb (rune_of "q") then Quote (Error e) else Error e
  end.

(** [fmt.Sprintf("%s", err)], [fmt.Sprintf("%v", err)]: the short format. *)
Definition short (e : errval) : string := fmt_operand (rune_of "s") e.
Definition short_v (e : errval) : string := fmt_operand (rune_of "v") e.

(** [fmt.Sprintf("%+v", err)]: the extended format. *)
Definition extended (e : errval) : string :=
  match Format_method e with
  | Some f => f true (rune_of "v")
  | None => Error e
  end.

(** [fmt.Sprintf("%q", err)] *)
Definition quoted (e : errval) : string := fmt_operand (rune_of "q") e.

(** [fmt.Errorf("%s: %w", message, operand)]: %w prints its operand as %v
    does and records it; the result is a fresh [*fmt.wrapError], or, for a
    nil operand, an error that wraps nothing. *)
Definition fmt_Errorf_s_w (message : string) (operand : error) : M errval :=
  match operand with
  | Some x =>
      p <- alloc ;;
      ret (wrapError p (message ++ ": " ++ fmt_operand (rune_of "v") x) x)
  | None =>
      p <- alloc ;;
      ret (errorString p (message ++ ": %!w(<nil>)"))
  end.

(** ** The exported functions *)

(** [func New(message string) error] *)
Definition New (cs : list uintptr) (message : string) : M error :=
  e <- errors_New message ;;
  st <- callers 0 cs ;;
  ret (Some (formatted (withStack e st))).

(** [func Errorf(format string, args ...interface{}) error] *)
Definition Errorf (cs : list uintptr) (format : string) (args : list any) : M error :=
  p <- alloc ;;
  st <- callers 0 cs ;;
  ret (Some (formatted (withStack (fmt_Errorf format args p) st))).

(** [func ensureStack(err error) error]; [sites] are the call sites active
    in [ensureStack], beginning at the call of [ensureStack]. *)
Definition ensureStack (sites : list uintptr) (err : error) : M error :=
  match err with
  | None => ret None
  | Some e =>
      match As stackTracer err with
      | Some _ => ret (Some (formatted e))
      | None =>
          st <- callers 1 sites ;;
          ret (Some (formatted (withStack e st)))
      end
  end.

(** [func WithStack(err error) error] *)
Definition WithStack (cs : list uintptr) (err : error) : M error :=
  ensureStack (return_pc 122 :: cs) err.

(** [func EnsureStack(err error) error] *)
Definition EnsureStack (cs : list uintptr) (err : error) : M error :=
  ensureStack (return_pc 130 :: cs) err.

(** [func Wrap(err error, message string) error] *)
Definition Wrap (cs : list uintptr) (err : error) (message : string) : M error :=
  match err with
  | None => ret None
  | Some _ =>
      inner <- ensureStack (return_pc 167 :: cs) err ;;
      w <- fmt_Errorf_s_w message inner ;;
      ret (Some (formatted w))
  end.

(** [func Wrapf(err error, format string, args ...interface{}) error] *)
Definition Wrapf (cs : list uintptr) (err : error)
    (format : string) (args : list any) : M error :=
  match err with
  | None => ret None
  | Some _ =>
      inner <- ensureStack (return_pc 177 :: cs) err ;;
      w <- fmt_Errorf_s_w (Sprintf format args) inner ;;
      ret (Some (formatted w))
  end.

(** [func WithMessage(err error, message string) error] *)
Definition WithMessage (err : error) (message : string) : M error :=
  match err with
  | None => ret None
  | Some _ =>
      w <- fmt_Errorf_s_w message err ;;
      ret (Some w)
  end.

(** [func WithMessagef(err error, format string, args ...interface{}) error] *)
Definition WithMessagef (err : error) (format : string) (args : list any) : M error :=
  match err with
  | None => ret None
  | Some _ =>
      w <- fmt_Errorf_s_w (Sprintf format args) err ;;
      ret (Some w)
  end.

(** The stack trace an error carries: that of the first node of its chain
    which has one ([As] followed by [st.StackTrace()]). *)
Definition trace_of (err : error) : option StackTrace :=
  match As stackTracer err with
  | Some st => StackTrace_method st
  | None => None
  end.

(** A sequence of annotation operations applied on top of an error. *)
Inductive annotation : Type :=
| by_Wrap (cs : list uintptr) (message : string)
| by_Wrapf (cs : list uintptr) (format : string) (args : list any)
| by_WithMessage (message : string)
| by_WithMessagef (format : string) (args : list any)
| by_EnsureStack (cs : list uintptr).

Definition annotate (a : annotation) (err : error) : M error :=
  match a with
  | by_Wrap cs message => Wrap cs err message
  | by_Wrapf cs format args => Wrapf cs err format args
  | by_WithMessage message => WithMessage err message
  | by_WithMessagef format args => WithMessagef err format args
  | by_EnsureStack cs => EnsureStack cs err
  end.

Fixpoint annotate_all (ops : list annotation) (err : error) : M error :=
  match ops with
  | [] => ret err
  | a :: rest => r <- annotate a err ;; annotate_all rest r
  end.

(** The errors the package hands out: the non-nil results of its exported
    constructors. *)
Inductive produced (x : errval) : Prop :=
| produced_New cs message w :
    fst (New cs message w) = Some x -> produced x
| produced_Errorf cs format args w :
    fst (Errorf cs format args w) = Some x -> produced x
| produced_WithStack cs err w :
    fst (WithStack cs err w) = Some x -> produced x
| produced_EnsureStack cs err w :
    fst (EnsureStack cs err w) = Some x -> produced x
| produced_Wrap cs err message w :
    fst (Wrap cs err message w) = Some x -> produced x
| produced_Wrapf cs err format args w :
    fst (Wrapf cs err format args w) = Some x -> produced x
| produced_WithMessage err message w :
    fst (WithMessage err message w) = Some x -> produced x
| produced_WithMessagef err format args w :
    fst (WithMessagef err format args w) = Some x -> produced x.

(** The operations that add a message and never look for a stack. *)
Definition message_only (a : annotation) : bool :=
  match a with
  | by_WithMessage _ | by_WithMessagef _ _ => true
  | _ => false
  end.

(** Some node of the chain of [e] has the method [StackTrace]. *)
Definition carries_stack (e : errval) : Prop :=
  exists x, In x (chain e) /\ stackTracer x = true.

(** The shape of one annotation on top of [y]. *)
Inductive layered (a : annotation) (y : errval) : errval -> Prop :=
| layered_message (p : addr) (msg : string) :
    message_only a = true ->
    layered a y (wrapError p msg y)
| layered_reuse (top : errval) :
    message_only a = false ->
    carries_stack y ->
    top = formatted y \/
      (exists p msg, top = formatted (wrapError p msg (formatted y))) ->
    layered a y top
| layered_capture (st : stack) (top : errval) :
    message_only a = false ->
    As stackTracer (Some y) = None ->
    top = formatted (withStack y st) \/
      (exists p msg, top = formatted (wrapError p msg (formatted (withStack y st)))) ->
    layered a y top.

(** The errors the stack-capturing constructors hand out. *)
Inductive stack_forcing (x : errval) : Prop :=
| forcing_New cs message w :
    fst (New cs message w) = Some x -> stack_forcing x
| forcing_Errorf cs format args w :
    fst (Errorf cs format args w) = Some x -> stack_forcing x
| forcing_WithStack cs err w :
    fst (WithStack cs err w) = Some x -> stack_forcing x
| forcing_EnsureStack cs err w :
    fst (EnsureStack cs err w) = Some x -> stack_forcing x
| forcing_Wrap cs err message w :
    fst (Wrap cs err message w) = Some x -> stack_forcing x
| forcing_Wrapf cs err format args w :
    fst (Wrapf cs err format args w) = Some x -> stack_forcing x.

(** The message an annotation adds, if any. *)
Definition message_of (a : annotation) : option string :=
  match a with
  | by_Wrap _ message => Some message
  | by_Wrapf _ format args => Some (Sprintf format args)
  | by_WithMessage message => Some message
  | by_WithMessagef format args => Some (Sprintf format args)
  | by_EnsureStack _ => None
  end.

(** The text after a sequence of annotations on an error of a given text:
    each message goes in front, followed by colon and space. *)
Fixpoint text_after (ops : list annotation) (text : string) : string :=
  match ops with
  | [] => text
  | a :: rest =>
      text_after rest
        match message_of a with
        | Some m => m ++ ": " ++ text
        | None => text
        end
  end.

(** The call stack an annotation is called on, when it can capture it. *)
Definition site_of (a : annotation) : list uintptr :=
  match a with
  | by_Wrap cs _ => cs
  | by_Wrapf cs _ _ => cs
  | by_EnsureStack cs => cs
  | _ => []
  end.

Definition forcing (a : annotation) : bool := negb (message_only a).

(** What the '+' branch of [formatted.Format] appends to the message: the
    output of [st.Format] for the first node with [Format] and
    [StackTrace], nothing when there is none. *)
Definition tracer_text (err : error) : string :=
  match As formatTracer err with
  | Some st => formatTracer_Format st true (rune_of "v")
  | None => ""
  end.

(** ** The loop of [Cause] *)

Lemma chain_Unwrap (e : errval) : chain e = e :: chain_of (Unwrap (Some e)).
Proof. destruct e as [| | | |p m t f [i|]]; reflexivity. Qed.

Lemma chain_head (e : errval) : exists rest, chain e = e :: rest.
Proof. rewrite chain_Unwrap. eauto. Qed.

Lemma As_self (implements : errval -> bool) (e : errval) :
  implements e = true -> As implements (Some e) = Some e.
Proof.
  intros H. unfold As. simpl. rewrite chain_Unwrap. simpl. now rewrite H.
Qed.

Lemma As_step (implements : errval -> bool) (e : errval) :
  implements e = false ->
  As implements (Some e) = As implements (Unwrap (Some e)).
Proof.
  intros H. unfold As at 1. simpl. rewrite chain_Unwrap. simpl. now rewrite H.
Qed.

Lemma As_implements (implements : errval -> bool) (err : error) (st : errval) :
  As implements err = Some st -> implements st = true.
Proof. intros H. apply find_some in H. tauto. Qed.

(** [As] stores the first node of the chain that implements the target. *)
Lemma As_first (implements : errval -> bool) (e x : errval) (pre post : list errval) :
  chain e = pre ++ x :: post ->
  (forall y, In y pre -> implements y = false) ->
  implements x = true ->
  As implements (Some e) = Some x.
Proof.
  intros Hc Hpre Hx. unfold As. simpl. rewrite Hc. clear Hc.
  induction pre as [|y pre IH]; simpl.
  - now rewrite Hx.
  - rewrite (Hpre y) by now left. apply IH. intros z Hz. apply Hpre. now right.
Qed.

Lemma As_none (implements : errval -> bool) (err : error) :
  (forall y, In y (chain_of err) -> implements y = false) ->
  As implements err = None.
Proof.
  intros H. unfold As. induction (chain_of err) as [|y l IH]; simpl; [reflexivity|].
  rewrite (H y) by now left. apply IH. intros z Hz. apply H. now right.
Qed.

(** Induction along the unwrap chain. *)
Lemma Unwrap_ind (P : errval -> Prop) :
  (forall e, (forall e', Unwrap (Some e) = Some e' -> P e') -> P e) ->
  forall e, P e.
Proof.
  intros step. fix IH 1. intros e. apply step.
  destruct e as [p s|p m err|err st|err|p m t f [err|]]; simpl; intros e' H;
    try discriminate; injection H as <-; apply IH.
Qed.

(** One iteration of the loop. *)
Lemma Cause_iter (err : error) :
  Cause err =
  match As stackTracer err with
  | Some st => Some st
  | None => match Unwrap err with
            | None => err
            | Some e => Cause (Some e)
            end
  end.
Proof.
  funelim (Cause err); rewrite Heq;
    try match goal with U : Unwrap _ = _ |- _ => rewrite U end;
    reflexivity.
Qed.

Lemma Cause_found (err : error) (st : errval) :
  As stackTracer err = Some st -> Cause err = Some st.
Proof. intros H. rewrite Cause_iter, H. reflexivity. Qed.

Lemma last_cons_head {A} (l : list A) (x d : A) : last (x :: l) d = last l x.
Proof.
  revert x d. induction l as [|y l IH]; intros x d; [reflexivity|].
  change (last (x :: y :: l) d) with (last (y :: l) d).
  now rewrite !IH.
Qed.

Lemma last_chain_Unwrap (e e' : errval) :
  Unwrap (Some e) = Some e' -> last (chain e) e = last (chain e') e'.
Proof.
  intros H. rewrite (chain_Unwrap e), H. simpl chain_of.
  destruct (chain_head e') as [rest ->].
  now rewrite !last_cons_head.
Qed.

(** Where no node has a [StackTrace], the loop runs down to the last node of
    the chain. *)
Lemma Cause_leaf (e : errval) :
  As stackTracer (Some e) = None -> Cause (Some e) = Some (last (chain e) e).
Proof.
  induction e as [e IH] using Unwrap_ind. intros Hnone.
  rewrite Cause_iter, Hnone.
  destruct (Unwrap (Some e)) as [e'|] eqn:U.
  - rewrite (last_chain_Unwrap _ _ U). apply (IH e' eq_refl).
    rewrite <- U, <- As_step; [assumption|].
    destruct (stackTracer e) eqn:Hx; [|reflexivity].
    rewrite (As_self _ _ Hx) in Hnone. discriminate.
  - rewrite chain_Unwrap, U. reflexivity.
Qed.

(** The last node of a chain unwraps to nothing. *)
Lemma last_chain_leaf (e : errval) : Unwrap (Some (last (chain e) e)) = None.
Proof.
  induction e as [e IH] using Unwrap_ind.
  destruct (Unwrap (Some e)) as [e'|] eqn:U.
  - rewrite (last_chain_Unwrap _ _ U). apply (IH e' eq_refl).
  - rewrite chain_Unwrap, U. simpl. exact U.
Qed.

(** What [Cause] returns is a fixed point of [Cause]. *)
Lemma Cause_fixed (err : error) : Cause (Cause err) = Cause err.
Proof.
  destruct err as [e|]; [|reflexivity].
  induction e as [e IH] using Unwrap_ind.
  rewrite (Cause_iter (Some e)).
  destruct (As stackTracer (Some e)) as [st|] eqn:A.
  - apply Cause_found, As_self, (As_implements _ _ _ A).
  - destruct (Unwrap (Some e)) as [e'|] eqn:U.
    + apply (IH e' eq_refl).
    + rewrite Cause_iter, A, U. reflexivity.
Qed.

(** ** Runs of [ensureStack] and of the wrapping functions *)

Lemma carries_stack_As (e : errval) :
  carries_stack e <-> exists st, As stackTracer (Some e) = Some st.
Proof.
  split.
  - intros (x & Hin & Hx). unfold As. simpl.
    destruct (find stackTracer (chain e)) as [st|] eqn:F; [eauto|].
    rewrite (find_none _ _ F x Hin) in Hx. discriminate.
  - intros (st & H). apply find_some in H. exists st. exact H.
Qed.

Lemma ensureStack_reuse (sites : list uintptr) (e : errval) (w : world) :
  carries_stack e -> ensureStack sites (Some e) w = (Some (formatted e), w).
Proof.
  intros H. apply carries_stack_As in H as (st & H).
  unfold ensureStack. now rewrite H.
Qed.

Lemma ensureStack_capture (sites : list uintptr) (e : errval) (w : world) :
  As stackTracer (Some e) = None ->
  ensureStack sites (Some e) w =
  (Some (formatted (withStack e (mkStack (brk w) (skipn 1 sites)))),
   mkWorld (N.succ (brk w)) (skipn 1 sites :: snapshots w)).
Proof. intros H. unfold ensureStack. now rewrite H. Qed.

Lemma As_formatted (e : errval) :
  As stackTracer (Some (formatted e)) = As stackTracer (Some e).
Proof. now rewrite As_step. Qed.

Lemma As_wrapError (p : addr) (msg : string) (e : errval) :
  As stackTracer (Some (wrapError p msg e)) = As stackTracer (Some e).
Proof. now rewrite As_step. Qed.

(** Whatever it is given, [ensureStack] returns an error that carries a
    stack. *)
Lemma ensureStack_carries (sites : list uintptr) (e : errval) (w : world) :
  exists x, fst (ensureStack sites (Some e) w) = Some (formatted x) /\
            carries_stack (formatted x) /\ Error x = Error e.
Proof.
  destruct (As stackTracer (Some e)) as [st|] eqn:A.
  - assert (C : carries_stack e) by (apply carries_stack_As; eauto).
    rewrite (ensureStack_reuse _ _ _ C). exists e. repeat split.
    apply carries_stack_As. rewrite As_formatted. eauto.
  - rewrite (ensureStack_capture _ _ _ A). eexists. repeat split.
    apply carries_stack_As. rewrite As_formatted, As_self by reflexivity. eauto.
Qed.

(** ** Properties of the exported functions *)

(** C4: for the nil error, each of Wrap, Wrapf, WithMessage, WithMessagef
    and EnsureStack (and its alias WithStack) returns nil, and creates no
    node: nothing is allocated and no stack is captured. *)
Theorem C4_nil_in_nil_out (cs : list uintptr) (message format : string)
    (args : list any) (w : world) :
  Wrap cs None message w = (None, w) /\
  Wrapf cs None format args w = (None, w) /\
  WithMessage None message w = (None, w) /\
  WithMessagef None format args w = (None, w) /\
  EnsureStack cs None w = (None, w) /\
  WithStack cs None w = (None, w).
Proof. repeat split. Qed.

(** C6: for a non-nil error whose chain already has a node exposing a
    StackTrace, EnsureStack returns [formatted{err}]: a wrapper with the
    Format method, whose Unwrap is err itself, whose message and stack trace
    are those of err; nothing is allocated and no stack is captured. *)
Theorem C6_EnsureStack_pass_through (cs : list uintptr) (e : errval) (w : world) :
  carries_stack e ->
  EnsureStack cs (Some e) w = (Some (formatted e), w) /\
  Unwrap (Some (formatted e)) = Some e /\
  has_Format (formatted e) = true /\
  Error (formatted e) = Error e /\
  As stackTracer (Some (formatted e)) = As stackTracer (Some e).
Proof.
  intros C. split; [apply ensureStack_reuse, C | repeat split].
Qed.

(** C2: ensuring a stack twice captures once.  The second EnsureStack
    leaves the world as it is (no snapshot, no allocation) and the trace the
    result carries is the one captured by the first.  More generally, once a
    chain has a node with a StackTrace, EnsureStack and Wrap take no snapshot
    and [As] still finds the very same node. *)
Theorem C2_no_double_capture (cs1 cs2 : list uintptr) (err : error) (w : world) :
  let r1 := EnsureStack cs1 err w in
  let r2 := EnsureStack cs2 (fst r1) (snd r1) in
  trace_of (fst r2) = trace_of (fst r1) /\
  snd r2 = snd r1 /\
  (err = None \/ exists t, trace_of (fst r1) = Some t) /\
  (forall (e : errval) (cs : list uintptr) (message : string) (w' : world),
      carries_stack e ->
      let r := EnsureStack cs (Some e) w' in
      let r' := Wrap cs (Some e) message w' in
      As stackTracer (fst r) = As stackTracer (Some e) /\
      trace_of (fst r) = trace_of (Some e) /\
      snapshots (snd r) = snapshots w' /\
      As stackTracer (fst r') = As stackTracer (Some e) /\
      trace_of (fst r') = trace_of (Some e) /\
      snapshots (snd r') = snapshots w').
Proof.
  cbv zeta. split; [|split; [|split]].
  - destruct err as [e|]; [|reflexivity].
    unfold EnsureStack.
    destruct (ensureStack_carries (return_pc 130 :: cs1) e w) as (x & E & C & _).
    rewrite E, (ensureStack_reuse _ _ _ C). unfold trace_of. simpl fst.
    now rewrite As_formatted.
  - destruct err as [e|]; [|reflexivity].
    unfold EnsureStack.
    destruct (ensureStack_carries (return_pc 130 :: cs1) e w) as (x & E & C & _).
    rewrite E, (ensureStack_reuse _ _ _ C). reflexivity.
  - destruct err as [e|]; [right|now left].
    unfold EnsureStack.
    destruct (ensureStack_carries (return_pc 130 :: cs1) e w) as (x & E & C & _).
    rewrite E. apply carries_stack_As in C as (st & A).
    unfold trace_of. rewrite A. apply As_implements in A.
    unfold stackTracer in A. destruct (StackTrace_method st); [eauto|discriminate].
  - intros e cs message w' C.
    unfold EnsureStack, Wrap, bind. rewrite !(ensureStack_reuse _ _ _ C).
    unfold trace_of. simpl. repeat split.
Qed.

Lemma fmt_operand_formatted (verb : rune) (x : errval) :
  verb = rune_of "v" \/ verb = rune_of "s" ->
  fmt_operand verb (formatted x) = Error x.
Proof. intros [-> | ->]; reflexivity. Qed.

Lemma Wrap_run (cs : list uintptr) (e : errval) (message : string) (w : world) :
  exists p x, fst (Wrap cs (Some e) message w) =
              Some (formatted (wrapError p (message ++ ": " ++ Error e) (formatted x))) /\
              Error x = Error e.
Proof.
  unfold Wrap, bind.
  destruct (ensureStack_carries (return_pc 167 :: cs) e w) as (x & E & _ & Hx).
  destruct (ensureStack _ _ w) as [inner w1]. simpl in E. subst inner.
  simpl. exists (brk w1), x.
  rewrite fmt_operand_formatted, Hx by now left. now split.
Qed.

(** C3: the short-format text (%s, also %v and Error()) of
    wrap(wrap(e, m1), m2) is "m2: m1: " followed by the text of e, the
    string e.Error() returns. *)
Theorem C3_Wrap_Wrap_short (cs1 cs2 : list uintptr) (e : errval)
    (m1 m2 : string) (w : world) :
  let r1 := Wrap cs1 (Some e) m1 w in
  let r2 := Wrap cs2 (fst r1) m2 (snd r1) in
  exists x, fst r2 = Some x /\
            short x = (m2 ++ ": " ++ m1 ++ ": " ++ Error e)%string /\
            short_v x = (m2 ++ ": " ++ m1 ++ ": " ++ Error e)%string /\
            Error x = (m2 ++ ": " ++ m1 ++ ": " ++ Error e)%string.
Proof.
  cbv zeta.
  destruct (Wrap_run cs1 e m1 w) as (p1 & x1 & E1 & _). rewrite E1.
  destruct (Wrap_run cs2 (formatted (wrapError p1 (m1 ++ ": " ++ Error e) (formatted x1)))
              m2 (snd (Wrap cs1 (Some e) m1 w))) as (p2 & x2 & E2 & _).
  rewrite E2. eexists. split; [reflexivity|]. repeat split.
Qed.

(** C7: cause(new(m)) is a node whose message is m and whose stack trace is
    the call stack New was called on, which is not empty when New has a
    caller. *)
Theorem C7_Cause_New (cs : list uintptr) (message : string) (w : world) :
  cs <> [] ->
  exists c t, Cause (fst (New cs message w)) = Some c /\
              Error c = message /\
              StackTrace_method c = Some t /\
              t = cs /\ t <> [].
Proof.
  intros Hcs. eexists. exists cs. split.
  - apply Cause_found. reflexivity.
  - repeat split. exact Hcs.
Qed.

(** ** [Cause] across the annotation layers *)

Lemma Cause_wrapError (p : addr) (msg : string) (e : errval) :
  Cause (Some (wrapError p msg e)) = Cause (Some e).
Proof.
  rewrite Cause_iter, As_wrapError. simpl Unwrap.
  destruct (As stackTracer (Some e)) eqn:A; [|reflexivity].
  symmetry. now apply Cause_found.
Qed.

Lemma Cause_formatted (e : errval) :
  Cause (Some (formatted e)) = Cause (Some e).
Proof.
  rewrite Cause_iter, As_formatted. simpl Unwrap.
  destruct (As stackTracer (Some e)) eqn:A; [|reflexivity].
  symmetry. now apply Cause_found.
Qed.

Lemma Cause_withStack (e : errval) (st : stack) :
  Cause (Some (withStack e st)) = Some (withStack e st).
Proof. apply Cause_found, As_self. reflexivity. Qed.

Lemma Cause_terminal (e : errval) :
  Unwrap (Some e) = None -> Cause (Some e) = Some e.
Proof.
  intros U. rewrite Cause_iter, U.
  destruct (As stackTracer (Some e)) as [st|] eqn:A; [|reflexivity].
  unfold As in A. simpl in A. rewrite chain_Unwrap, U in A. simpl in A.
  destruct (stackTracer e); congruence.
Qed.

Lemma message_only_run (a : annotation) (e : errval) (w : world) :
  message_only a = true ->
  exists p msg, fst (annotate a (Some e) w) = Some (wrapError p msg e).
Proof.
  destruct a; try discriminate; intros _; simpl; eauto.
Qed.

Lemma message_only_Cause (ops : list annotation) (e : errval) (w : world) :
  forallb message_only ops = true ->
  Cause (fst (annotate_all ops (Some e) w)) = Cause (Some e).
Proof.
  revert e w. induction ops as [|a ops IH]; intros e w H; [reflexivity|].
  simpl in H. apply andb_true_iff in H as [Ha Hops].
  destruct (message_only_run a e w Ha) as (p & msg & E).
  simpl. unfold bind. destruct (annotate a (Some e) w) as [r w1].
  simpl in E. subst r. rewrite (IH _ _ Hops). apply Cause_wrapError.
Qed.

(** C5: [Cause] returns the first node of the unwrap chain, outermost
    first, that exposes a StackTrace; if no node exposes one it returns the
    last node of the chain, the leaf, unchanged; in particular, for layers of
    WithMessage / WithMessagef on top of a leaf, it returns that leaf. *)
Theorem C5_Cause_walk (e : errval) :
  (forall (pre post : list errval) (x : errval),
      chain e = pre ++ x :: post ->
      (forall y, In y pre -> stackTracer y = false) ->
      stackTracer x = true ->
      Cause (Some e) = Some x) /\
  ((forall y, In y (chain e) -> stackTracer y = false) ->
      Cause (Some e) = Some (last (chain e) e) /\
      Unwrap (Some (last (chain e) e)) = None) /\
  (forall (ops : list annotation) (w : world),
      Unwrap (Some e) = None ->
      forallb message_only ops = true ->
      Cause (fst (annotate_all ops (Some e) w)) = Some e).
Proof.
  split; [|split].
  - intros pre post x Hc Hpre Hx.
    apply Cause_found. exact (As_first _ _ _ _ _ Hc Hpre Hx).
  - intros Hnone. split; [|apply last_chain_leaf].
    apply Cause_leaf. apply As_none. exact Hnone.
  - intros ops w U Hops.
    rewrite (message_only_Cause _ _ _ Hops). apply Cause_terminal, U.
Qed.

Lemma Cause_result (e : errval) :
  exists c, Cause (Some e) = Some c /\
            (stackTracer c = true \/ Unwrap (Some c) = None).
Proof.
  induction e as [e IH] using Unwrap_ind.
  rewrite Cause_iter.
  destruct (As stackTracer (Some e)) as [st|] eqn:A.
  - exists st. split; [reflexivity|]. left. exact (As_implements _ _ _ A).
  - destruct (Unwrap (Some e)) as [e'|] eqn:U.
    + apply (IH e' eq_refl).
    + exists e. split; [reflexivity|]. now right.
Qed.

(** C9: [Cause] applied to the nil error returns nil; no panic, the
    function is total. *)
Theorem C9_Cause_nil : Cause None = None.
Proof. reflexivity. Qed.


(** C10: [Cause] is idempotent; what it returns for a non-nil error is a
    node that exposes a StackTrace or a node with nothing to unwrap, and nil
    only for nil. *)
Theorem C10_Cause_idempotent (err : error) :
  Cause (Cause err) = Cause err /\
  match Cause err with
  | Some c => stackTracer c = true \/ Unwrap (Some c) = None
  | None => err = None
  end.
Proof.
  split; [apply Cause_fixed|].
  destruct err as [e|]; [|reflexivity].
  destruct (Cause_result e) as (c & -> & H). exact H.
Qed.

(** ** Sequences of annotations *)

Lemma annotate_layered (a : annotation) (y : errval) (w : world) :
  exists top, fst (annotate a (Some y) w) = Some top /\ layered a y top.
Proof.
  destruct (As stackTracer (Some y)) as [st|] eqn:A.
  - assert (C : carries_stack y) by (apply carries_stack_As; eauto).
    destruct a; cbn [annotate]; unfold Wrap, Wrapf, EnsureStack, bind;
      try rewrite (ensureStack_reuse _ _ _ C); simpl; eexists;
      (split; [reflexivity|]);
      try (now apply layered_message);
      (apply layered_reuse; [reflexivity | exact C | eauto]).
  - destruct a; cbn [annotate]; unfold Wrap, Wrapf, EnsureStack, bind;
      try rewrite (ensureStack_capture _ _ _ A); simpl; eexists;
      (split; [reflexivity|]);
      try (now apply layered_message);
      (eapply layered_capture; [reflexivity | exact A | eauto]).
Qed.

Lemma In_chain_self (e : errval) : In e (chain e).
Proof. rewrite chain_Unwrap. now left. Qed.

Lemma In_chain_Unwrap (e y z : errval) :
  Unwrap (Some z) = Some y -> In e (chain y) -> In e (chain z).
Proof. intros U H. rewrite chain_Unwrap, U. now right. Qed.

Lemma layered_In (a : annotation) (e y top : errval) :
  layered a y top -> In e (chain y) -> In e (chain top).
Proof.
  intros L H.
  destruct L as [p msg _ | top _ _ [-> | (p & msg & ->)]
                | st top _ _ [-> | (p & msg & ->)]];
    repeat (eapply In_chain_Unwrap; [reflexivity|]); exact H.
Qed.

Lemma layered_Cause_kept (a : annotation) (y top : errval) :
  layered a y top ->
  message_only a = true \/ carries_stack y ->
  Cause (Some top) = Cause (Some y).
Proof.
  intros L H.
  destruct L as [p msg _ | top _ _ [-> | (p & msg & ->)]
                | st top Hf A [-> | (p & msg & ->)]];
    rewrite ?Cause_formatted, ?Cause_wrapError, ?Cause_formatted; try reflexivity.
  all: destruct H as [H | H]; [congruence|].
  all: apply carries_stack_As in H as (x & H); congruence.
Qed.

Lemma layered_carries (a : annotation) (y top : errval) :
  layered a y top ->
  message_only a = false \/ carries_stack y ->
  carries_stack top.
Proof.
  intros L H. apply carries_stack_As.
  destruct L as [p msg Hm | top _ C [-> | (p & msg & ->)]
                | st top _ _ [-> | (p & msg & ->)]];
    rewrite ?As_formatted, ?As_wrapError, ?As_formatted.
  - destruct H as [H | H]; [congruence|]. now apply carries_stack_As.
  - now apply carries_stack_As.
  - now apply carries_stack_As.
  - rewrite As_self by reflexivity. eauto.
  - rewrite As_self by reflexivity. eauto.
Qed.

Lemma layered_Cause_captured (a : annotation) (y top : errval) :
  layered a y top ->
  message_only a = false ->
  As stackTracer (Some y) = None ->
  exists st, Cause (Some top) = Some (withStack y st).
Proof.
  intros L Hf A.
  destruct L as [p msg Hm | top _ C [-> | (p & msg & ->)]
                | st top _ _ [-> | (p & msg & ->)]].
  - congruence.
  - apply carries_stack_As in C as (x & C). congruence.
  - apply carries_stack_As in C as (x & C). congruence.
  - exists st. now rewrite Cause_formatted, Cause_withStack.
  - exists st. now rewrite Cause_formatted, Cause_wrapError, Cause_formatted,
      Cause_withStack.
Qed.

Lemma annotate_all_cons (a : annotation) (ops : list annotation)
    (err : error) (w : world) :
  annotate_all (a :: ops) err w =
  annotate_all ops (fst (annotate a err w)) (snd (annotate a err w)).
Proof. simpl. unfold bind. now destruct (annotate a err w). Qed.

Lemma annotate_all_app (pre post : list annotation) (err : error) (w : world) :
  annotate_all (pre ++ post) err w =
  annotate_all post (fst (annotate_all pre err w)) (snd (annotate_all pre err w)).
Proof.
  revert err w. induction pre as [|a pre IH]; intros err w; [reflexivity|].
  rewrite <- app_comm_cons, !annotate_all_cons. apply IH.
Qed.

Lemma In_chain_trans (e y z : errval) :
  In e (chain y) -> In y (chain z) -> In e (chain z).
Proof.
  intros He. induction z as [z IH] using Unwrap_ind. intros Hy.
  rewrite chain_Unwrap in Hy. destruct Hy as [<- | Hy]; [exact He|].
  destruct (Unwrap (Some z)) as [z'|] eqn:U; [|contradiction].
  eapply In_chain_Unwrap; [exact U|]. apply (IH z' eq_refl Hy).
Qed.

(** An annotated present error is present, and the error it was built on is
    a node of its chain. *)
Lemma annotate_all_In (ops : list annotation) (e : errval) (w : world) :
  exists r, fst (annotate_all ops (Some e) w) = Some r /\ In e (chain r).
Proof.
  revert e w. induction ops as [|a ops IH]; intros e w.
  - exists e. split; [reflexivity | apply In_chain_self].
  - rewrite annotate_all_cons.
    destruct (annotate_layered a e w) as (top & E & L). rewrite E.
    destruct (IH top (snd (annotate a (Some e) w))) as (r & Er & Hin).
    exists r. split; [exact Er|].
    apply (In_chain_trans e top r); [|exact Hin].
    apply (layered_In a e e top L), In_chain_self.
Qed.

Lemma carries_stack_Cause_kept (ops : list annotation) (e : errval) (w : world) :
  carries_stack e ->
  Cause (fst (annotate_all ops (Some e) w)) = Cause (Some e).
Proof.
  revert e w. induction ops as [|a ops IH]; intros e w C; [reflexivity|].
  rewrite annotate_all_cons.
  destruct (annotate_layered a e w) as (top & E & L). rewrite E.
  rewrite IH by (eapply layered_carries; eauto).
  eapply layered_Cause_kept; eauto.
Qed.

Lemma message_only_layers (ops : list annotation) (e : errval) (w : world) :
  forallb message_only ops = true ->
  exists y, fst (annotate_all ops (Some e) w) = Some y /\
            As stackTracer (Some y) = As stackTracer (Some e).
Proof.
  revert e w. induction ops as [|a ops IH]; intros e w H.
  - exists e. now split.
  - simpl in H. apply andb_true_iff in H as [Ha Hops].
    rewrite annotate_all_cons.
    destruct (message_only_run a e w Ha) as (p & msg & E). rewrite E.
    destruct (IH (wrapError p msg e) (snd (annotate a (Some e) w)) Hops)
      as (y & Ey & A).
    exists y. split; [exact Ey|]. now rewrite A, As_wrapError.
Qed.

Lemma not_carries_As (e : errval) :
  ~ carries_stack e -> As stackTracer (Some e) = None.
Proof.
  intros H. destruct (As stackTracer (Some e)) as [st|] eqn:A; [|reflexivity].
  exfalso. apply H, carries_stack_As. eauto.
Qed.

(** C1, amended: after any sequence of annotations on top of a present
    error e, e itself is still a node of the result's chain, and Cause of the
    result is
    - what Cause returns for e, when the chain of e already exposes a
      StackTrace or when only WithMessage / WithMessagef were applied: for a
      leaf e, e itself;
    - otherwise the [withStack] node made by the first of Wrap, Wrapf and
      EnsureStack in the sequence: not e, but a node whose Unwrap is e as
      annotated by the message layers before it (e itself when there is
      none), and whose message is the message of that error. *)
Theorem C1_Cause_after_annotations (e : errval) (ops : list annotation) (w : world) :
  exists r,
    fst (annotate_all ops (Some e) w) = Some r /\
    In e (chain r) /\
    (carries_stack e \/ forallb message_only ops = true ->
       Cause (Some r) = Cause (Some e)) /\
    (Unwrap (Some e) = None -> forallb message_only ops = true ->
       Cause (Some r) = Some e) /\
    (forall (pre post : list annotation) (a : annotation),
       ~ carries_stack e ->
       ops = pre ++ a :: post ->
       forallb message_only pre = true ->
       message_only a = false ->
       exists y st,
         fst (annotate_all pre (Some e) w) = Some y /\
         In e (chain y) /\
         Cause (Some r) = Some (withStack y st) /\
         withStack y st <> e /\
         Unwrap (Some (withStack y st)) = Some y /\
         Error (withStack y st) = Error y) /\
    (forall (post : list annotation) (a : annotation),
       ~ carries_stack e ->
       ops = a :: post ->
       message_only a = false ->
       exists st,
         Cause (Some r) = Some (withStack e st) /\
         withStack e st <> e /\
         Unwrap (Some (withStack e st)) = Some e /\
         Error (withStack e st) = Error e).
Proof.
  destruct (annotate_all_In ops e w) as (r & Er & Hin).
  assert (Hsplit : forall pre post a,
             ~ carries_stack e ->
             ops = pre ++ a :: post ->
             forallb message_only pre = true ->
             message_only a = false ->
             exists y st,
               fst (annotate_all pre (Some e) w) = Some y /\
               In e (chain y) /\
               Cause (Some r) = Some (withStack y st)).
  { intros pre post a Hn -> Hpre Ha.
    destruct (message_only_layers pre e w Hpre) as (y & Ey & A).
    destruct (annotate_all_In pre e w) as (y' & Ey' & Hy).
    assert (y' = y) by congruence. subst y'.
    rewrite (not_carries_As _ Hn) in A.
    rewrite annotate_all_app, annotate_all_cons, Ey in Er.
    destruct (annotate_layered a y (snd (annotate_all pre (Some e) w)))
      as (top & Et & L).
    rewrite Et in Er.
    destruct (layered_Cause_captured a y top L Ha A) as (st & Ct).
    exists y, st. split; [exact Ey|]. split; [exact Hy|].
    rewrite <- Er, carries_stack_Cause_kept; [exact Ct|].
    eapply layered_carries; eauto. }
  exists r. split; [exact Er|]. split; [exact Hin|]. split; [|split; [|split]].
  - intros [C | Hm]; rewrite <- Er.
    + now apply carries_stack_Cause_kept.
    + now apply message_only_Cause.
  - intros U Hm. rewrite <- Er, message_only_Cause by exact Hm.
    apply Cause_terminal, U.
  - intros pre post a Hn Hops Hpre Ha.
    destruct (Hsplit pre post a Hn Hops Hpre Ha) as (y & st & Ey & Hy & C).
    exists y, st. repeat split; try assumption.
    intros <-. apply Hn. exists (withStack y st).
    split; [apply In_chain_self | reflexivity].
  - intros post a Hn Hops Ha.
    destruct (Hsplit [] post a Hn Hops eq_refl Ha) as (y & st & Ey & Hy & C).
    simpl in Ey. injection Ey as <-. exists st. repeat split; try assumption.
    intros E. apply Hn. rewrite <- E. exists (withStack e st).
    split; [apply In_chain_self | reflexivity].
Qed.

(** ** Quoting *)

Lemma append_assoc (a b c : string) : ((a ++ b) ++ c = a ++ (b ++ c))%string.
Proof. induction a as [|x a IH]; simpl; [reflexivity | now rewrite IH]. Qed.

Lemma append_empty (a : string) : (a ++ "")%string = a.
Proof. induction a as [|x a IH]; simpl; [reflexivity | now rewrite IH]. Qed.

Lemma byte_val_byte (x : Z) : (0 <= x < 256)%Z -> byte_val (byte x) = x.
Proof.
  intros [H1 H2]. destruct x as [|p|p]; [reflexivity| |lia].
  do 8 (destruct p as [p|p|]; try lia; try reflexivity).
Qed.

Lemma plain_byte_small (x : Z) :
  (0 <= x < 256)%Z -> x <> byte_val dquote -> x <> byte_val backslash ->
  plain_byte (byte x) = true.
Proof.
  intros Hx Hq Hb. unfold plain_byte.
  destruct (Ascii.eqb (byte x) backslash) eqn:B.
  - apply Ascii.eqb_eq in B. apply (f_equal byte_val) in B.
    rewrite byte_val_byte in B by exact Hx. contradiction.
  - destruct (Ascii.eqb (byte x) dquote) eqn:Q; [|reflexivity].
    apply Ascii.eqb_eq in Q. apply (f_equal byte_val) in Q.
    rewrite byte_val_byte in Q by exact Hx. contradiction.
Qed.

(** The bytes of a multi-byte UTF-8 sequence have their top bit set. *)
Lemma plain_byte_high (t x : Z) :
  Z.testbit t 7 = true -> plain_byte (byte (Z.lor t x)) = true.
Proof.
  intros Ht. unfold plain_byte.
  assert (H : forall c, c = backslash \/ c = dquote -> byte (Z.lor t x) <> c).
  { intros c Hc E. apply (f_equal (fun a => match a with Ascii _ _ _ _ _ _ _ b => b end)) in E.
    unfold byte in E. rewrite Z.lor_spec, Ht in E.
    destruct Hc as [-> | ->]; discriminate. }
  rewrite (proj2 (Ascii.eqb_neq _ _) (H _ (or_introl eq_refl))).
  rewrite (proj2 (Ascii.eqb_neq _ _) (H _ (or_intror eq_refl))).
  reflexivity.
Qed.

Lemma plain_lowerhex (x : Z) : plain_byte (strconv.lowerhex (Z.land x 0xF)) = true.
Proof.
  assert (H : (0 <= Z.land x 0xF < 16)%Z).
  { change 0xF%Z with (Z.ones 4). rewrite Z.land_ones by lia.
    apply Z.mod_pos_bound. reflexivity. }
  destruct (Z.land x 0xF) as [|p|p]; [reflexivity| |lia].
  do 4 (destruct p as [p|p|]; try lia; try reflexivity).
Qed.

Lemma plain_hexdigits (r : rune) (shifts : list Z) :
  plain (strconv.hexdigits r shifts) = true.
Proof.
  induction shifts as [|sh rest IH]; simpl; [reflexivity|].
  now rewrite plain_lowerhex, IH.
Qed.

Lemma well_escaped_plain (p t : string) :
  plain p = true -> well_escaped (p ++ t) = well_escaped t.
Proof.
  induction p as [|c p IH]; simpl; [reflexivity|].
  unfold plain_byte. intros H.
  apply andb_true_iff in H as [Hc Hp]. apply andb_true_iff in Hc as [Hb Hq].
  apply negb_true_iff in Hb, Hq. rewrite Hb, Hq. apply IH, Hp.
Qed.

Lemma well_escaped_piece (p t : string) :
  piece p -> well_escaped (p ++ t) = well_escaped t.
Proof.
  intros [q Hq | c q Hq].
  - apply well_escaped_plain, Hq.
  - simpl. apply well_escaped_plain, Hq.
Qed.

Lemma plain_encode3 (r : rune) : plain (utf8.encode3 r) = true.
Proof.
  unfold utf8.encode3. cbn [plain]. now rewrite !plain_byte_high.
Qed.

Lemma plain_AppendRune (r : rune) :
  r <> byte_val dquote -> r <> byte_val backslash ->
  plain (utf8.AppendRune r) = true.
Proof.
  intros Hq Hb. unfold utf8.AppendRune.
  destruct (between 0 127 r) eqn:B1.
  - cbn [plain]. rewrite plain_byte_small; [reflexivity | | exact Hq | exact Hb].
    unfold between in B1. lia.
  - destruct (between 0 2047 r); [cbn [plain]; now rewrite !plain_byte_high|].
    destruct (negb (utf8.ValidRune r)); [apply plain_encode3|].
    destruct (r <=? 65535)%Z; [apply plain_encode3|].
    cbn [plain]. now rewrite !plain_byte_high.
Qed.

Lemma piece_appendEscapedRune (r : rune) :
  piece (strconv.appendEscapedRune isPrint_table r).
Proof.
  unfold strconv.appendEscapedRune.
  destruct (r =? byte_val dquote)%Z eqn:Q; [now apply piece_escape|].
  destruct (r =? byte_val backslash)%Z eqn:B; [now apply piece_escape|].
  cbn [orb].
  destruct (strconv.IsPrint isPrint_table r).
  { apply piece_plain, plain_AppendRune; lia. }
  repeat match goal with
         | |- piece (if ?c then _ else _) => destruct c
         end;
    try (now apply piece_escape);
    apply piece_escape, plain_hexdigits.
Qed.

Lemma well_escaped_quote_loop (fuel : nat) (s t : string) :
  well_escaped (strconv.quote_loop isPrint_table fuel s ++ t) = well_escaped t.
Proof.
  revert s t. induction fuel as [|fuel IH]; intros s t; [reflexivity|].
  destruct s as [|c0 s']; [reflexivity|].
  cbn [strconv.quote_loop].
  destruct (if (utf8.RuneSelf <=? byte_val c0)%Z
            then utf8.DecodeRuneInString (String c0 s')
            else (byte_val c0, 1%nat)) as [r width].
  rewrite append_assoc, well_escaped_piece; [apply IH|].
  destruct ((width =? 1)%nat && (r =? utf8.RuneError)%Z).
  - apply piece_escape, plain_hexdigits.
  - apply piece_appendEscapedRune.
Qed.

(** On printable ASCII, quoting puts a backslash before each quotation mark
    and each backslash and changes nothing else. *)
Lemma appendEscapedRune_printable (c : ascii) :
  between 0x20 0x7E (byte_val c) = true ->
  strconv.appendEscapedRune isPrint_table (byte_val c) =
  if Ascii.eqb c dquote || Ascii.eqb c backslash
  then String backslash (String c "") else String c "".
Proof.
  destruct c as [[] [] [] [] [] [] [] []]; intros H; try discriminate H;
    reflexivity.
Qed.

Lemma unbackslash_quote_loop (s : string) (fuel : nat) :
  printable_ascii s = true -> String.length s <= fuel ->
  unbackslash (strconv.quote_loop isPrint_table fuel s) = s.
Proof.
  revert fuel. induction s as [|c s IH]; intros fuel Hp Hf.
  - destruct fuel; reflexivity.
  - destruct fuel as [|fuel]; [simpl in Hf; lia|].
    simpl in Hp. apply andb_true_iff in Hp as [Hc Hs].
    cbn [strconv.quote_loop].
    assert (Hlt : (utf8.RuneSelf <=? byte_val c)%Z = false).
    { unfold between in Hc. unfold utf8.RuneSelf. lia. }
    rewrite Hlt.
    assert (Hne : ((1 =? 1)%nat && (byte_val c =? utf8.RuneError)%Z) = false).
    { unfold between in Hc. unfold utf8.RuneError. simpl. lia. }
    rewrite Hne, (appendEscapedRune_printable c Hc).
    cbn [drop].
    assert (IH' := IH fuel Hs ltac:(simpl in Hf; lia)).
    destruct (Ascii.eqb c dquote) eqn:Q.
    + apply Ascii.eqb_eq in Q. subst c. simpl. now rewrite IH'.
    + destruct (Ascii.eqb c backslash) eqn:B.
      * apply Ascii.eqb_eq in B. subst c. simpl. now rewrite IH'.
      * simpl. rewrite B. now rewrite IH'.
Qed.

Lemma Decode_width (s : string) (r : rune) (width : nat) :
  s <> "" -> utf8.DecodeRuneInString s = (r, width) -> 1 <= width.
Proof.
  intros Hs. unfold utf8.DecodeRuneInString.
  destruct s as [|c0 rest]; [contradiction|].
  repeat match goal with
         | |- context [if ?c then _ else _] => destruct c
         | |- context [match ?x with _ => _ end] => destruct x
         end;
    intros H; inversion H; lia.
Qed.

Lemma length_drop (n : nat) (s : string) :
  String.length (drop n s) = String.length s - n.
Proof.
  revert s. induction n as [|n IH]; intros [|c s]; simpl; try lia. apply IH.
Qed.

(** The quoting loop is done within [length s] iterations: more fuel
    changes nothing. *)
Lemma quote_loop_fuel (fuel : nat) (s : string) :
  String.length s <= fuel ->
  strconv.quote_loop isPrint_table fuel s =
  strconv.quote_loop isPrint_table (String.length s) s.
Proof.
  revert s. induction fuel as [fuel IH] using lt_wf_ind. intros s Hf.
  destruct s as [|c0 s']; [now destruct fuel|].
  destruct fuel as [|fuel]; [simpl in Hf; lia|].
  cbn [strconv.quote_loop String.length].
  destruct (if (utf8.RuneSelf <=? byte_val c0)%Z
            then utf8.DecodeRuneInString (String c0 s')
            else (byte_val c0, 1%nat)) as [r width] eqn:D.
  assert (Hw : 1 <= width).
  { destruct (utf8.RuneSelf <=? byte_val c0)%Z.
    - eapply Decode_width; [|exact D]. discriminate.
    - injection D as _ <-. lia. }
  assert (Hd : String.length (drop width (String c0 s')) <= String.length s').
  { rewrite length_drop. cbn [String.length]. lia. }
  f_equal. simpl in Hf.
  transitivity (strconv.quote_loop isPrint_table
                  (String.length (drop width (String c0 s')))
                  (drop width (String c0 s')));
    [|symmetry]; apply IH; lia.
Qed.

(** ** Reading the quoted text back *)

Lemma byte_val_range (c : ascii) : (0 <= byte_val c < 256)%Z.
Proof. destruct c as [[] [] [] [] [] [] [] []]; vm_compute; split; congruence. Qed.

Lemma byte_byte_val (c : ascii) : byte (byte_val c) = c.
Proof. destruct c as [[] [] [] [] [] [] [] []]; reflexivity. Qed.

(** Bits that do not overlap add up. *)
Lemma lor_disjoint (x y k : Z) :
  (0 <= k -> 0 <= y < 2 ^ k -> Z.lor (x * 2 ^ k) y = x * 2 ^ k + y)%Z.
Proof.
  intros Hk Hy.
  assert (D : Z.land (x * 2 ^ k) y = 0%Z); [|now rewrite <- Z.lxor_lor, Z.add_nocarry_lxor].
  apply Z.bits_inj'. intros n Hn. rewrite Z.land_spec, Z.bits_0.
  destruct (Z.lt_ge_cases n k) as [L | G].
  - now rewrite Z.mul_pow2_bits_low by lia.
  - destruct (Z.eq_dec y 0) as [-> | Hy0].
    + now rewrite Z.bits_0, andb_false_r.
    + rewrite (Z.bits_above_log2 y n), andb_false_r; [reflexivity | lia |].
      apply Z.log2_lt_pow2; [lia|].
      apply Z.lt_le_trans with (2 ^ k)%Z; [lia|].
      apply Z.pow_le_mono_r; lia.
Qed.

Lemma land_mod (x : Z) (k : Z) (m : Z) :
  (0 <= k -> m = Z.ones k -> Z.land x m = x mod 2 ^ k)%Z.
Proof. intros Hk ->. now apply Z.land_ones. Qed.

(** The bits of a decoded rune, as arithmetic. *)
Ltac to_arith :=
  repeat first
    [ rewrite (land_mod _ 5 0x1F) by (lia || reflexivity)
    | rewrite (land_mod _ 4 0x0F) by (lia || reflexivity)
    | rewrite (land_mod _ 3 0x07) by (lia || reflexivity)
    | rewrite (land_mod _ 6 0x3F) by (lia || reflexivity)
    | rewrite Z.shiftl_mul_pow2 by lia
    | rewrite Z.shiftr_div_pow2 by lia ].

Lemma rune2_val (s0 s1 : Z) :
  (0xC2 <= s0 <= 0xDF -> 0x80 <= s1 <= 0xBF ->
   Z.lor (Z.shiftl (Z.land s0 0x1F) 6) (Z.land s1 0x3F) =
   (s0 - 0xC0) * 64 + (s1 - 0x80))%Z.
Proof.
  intros H0 H1. to_arith.
  rewrite lor_disjoint by (try apply Z.mod_pos_bound; lia).
  change (2 ^ 6)%Z with 64%Z. change (2 ^ 5)%Z with 32%Z.
  Z.div_mod_to_equations. lia.
Qed.

Lemma rune3_val (s0 s1 s2 : Z) :
  (0xE0 <= s0 <= 0xEF -> 0x80 <= s1 <= 0xBF -> 0x80 <= s2 <= 0xBF ->
   Z.lor (Z.lor (Z.shiftl (Z.land s0 0x0F) 12) (Z.shiftl (Z.land s1 0x3F) 6))
         (Z.land s2 0x3F) =
   (s0 - 0xE0) * 4096 + (s1 - 0x80) * 64 + (s2 - 0x80))%Z.
Proof.
  intros H0 H1 H2.
  assert (E0 : Z.land s0 0x0F = (s0 - 0xE0)%Z)
    by (to_arith; change (2 ^ 4)%Z with 16%Z; Z.div_mod_to_equations; lia).
  assert (E1 : Z.land s1 0x3F = (s1 - 0x80)%Z)
    by (to_arith; change (2 ^ 6)%Z with 64%Z; Z.div_mod_to_equations; lia).
  assert (E2 : Z.land s2 0x3F = (s2 - 0x80)%Z)
    by (to_arith; change (2 ^ 6)%Z with 64%Z; Z.div_mod_to_equations; lia).
  rewrite E0, E1, E2, !Z.shiftl_mul_pow2 by lia.
  rewrite (lor_disjoint _ _ 12) by (change (2 ^ 6)%Z with 64%Z; change (2 ^ 12)%Z with 4096%Z; lia).
  replace ((s0 - 0xE0) * 2 ^ 12 + (s1 - 0x80) * 2 ^ 6)%Z
    with (((s0 - 0xE0) * 64 + (s1 - 0x80)) * 2 ^ 6)%Z
    by (change (2 ^ 6)%Z with 64%Z; change (2 ^ 12)%Z with 4096%Z; lia).
  rewrite lor_disjoint by (change (2 ^ 6)%Z with 64%Z; lia).
  change (2 ^ 6)%Z with 64%Z. lia.
Qed.

Lemma rune4_val (s0 s1 s2 s3 : Z) :
  (0xF0 <= s0 <= 0xF7 -> 0x80 <= s1 <= 0xBF -> 0x80 <= s2 <= 0xBF ->
   0x80 <= s3 <= 0xBF ->
   Z.lor (Z.lor (Z.lor (Z.shiftl (Z.land s0 0x07) 18)
                       (Z.shiftl (Z.land s1 0x3F) 12))
                (Z.shiftl (Z.land s2 0x3F) 6))
         (Z.land s3 0x3F) =
   (s0 - 0xF0) * 262144 + (s1 - 0x80) * 4096 + (s2 - 0x80) * 64 + (s3 - 0x80))%Z.
Proof.
  intros H0 H1 H2 H3.
  assert (E0 : Z.land s0 0x07 = (s0 - 0xF0)%Z)
    by (to_arith; change (2 ^ 3)%Z with 8%Z; Z.div_mod_to_equations; lia).
  assert (E1 : Z.land s1 0x3F = (s1 - 0x80)%Z)
    by (to_arith; change (2 ^ 6)%Z with 64%Z; Z.div_mod_to_equations; lia).
  assert (E2 : Z.land s2 0x3F = (s2 - 0x80)%Z)
    by (to_arith; change (2 ^ 6)%Z with 64%Z; Z.div_mod_to_equations; lia).
  assert (E3 : Z.land s3 0x3F = (s3 - 0x80)%Z)
    by (to_arith; change (2 ^ 6)%Z with 64%Z; Z.div_mod_to_equations; lia).
  rewrite E0, E1, E2, E3, !Z.shiftl_mul_pow2 by lia.
  rewrite (lor_disjoint _ _ 18)
    by (change (2 ^ 12)%Z with 4096%Z; change (2 ^ 18)%Z with 262144%Z; lia).
  replace ((s0 - 0xF0) * 2 ^ 18 + (s1 - 0x80) * 2 ^ 12)%Z
    with (((s0 - 0xF0) * 64 + (s1 - 0x80)) * 2 ^ 12)%Z
    by (change (2 ^ 12)%Z with 4096%Z; change (2 ^ 18)%Z with 262144%Z; lia).
  rewrite (lor_disjoint _ _ 12)
    by (change (2 ^ 6)%Z with 64%Z; change (2 ^ 12)%Z with 4096%Z; lia).
  replace (((s0 - 0xF0) * 64 + (s1 - 0x80)) * 2 ^ 12 + (s2 - 0x80) * 2 ^ 6)%Z
    with ((((s0 - 0xF0) * 64 + (s1 - 0x80)) * 64 + (s2 - 0x80)) * 2 ^ 6)%Z
    by (change (2 ^ 6)%Z with 64%Z; change (2 ^ 12)%Z with 4096%Z; lia).
  rewrite lor_disjoint by (change (2 ^ 6)%Z with 64%Z; lia).
  change (2 ^ 6)%Z with 64%Z. lia.
Qed.

(** A tag byte and the payload bits under it. *)
Lemma tag_lor (t x k y : Z) :
  (t = x * 2 ^ k -> 0 <= k -> 0 <= y < 2 ^ k -> Z.lor t y = t + y)%Z.
Proof. intros -> Hk Hy. now apply lor_disjoint. Qed.

Lemma byte_of_val (c : ascii) (x : Z) : x = byte_val c -> byte x = c.
Proof. intros ->. apply byte_byte_val. Qed.

Lemma AppendRune2 (c0 c1 : ascii) :
  (0xC2 <= byte_val c0 <= 0xDF -> 0x80 <= byte_val c1 <= 0xBF ->
   utf8.AppendRune ((byte_val c0 - 0xC0) * 64 + (byte_val c1 - 0x80)) =
   String c0 (String c1 ""))%Z.
Proof.
  intros H0 H1. unfold utf8.AppendRune.
  set (r := ((byte_val c0 - 0xC0) * 64 + (byte_val c1 - 0x80))%Z).
  assert (B1 : between 0 0x7F r = false) by (unfold between, r; lia).
  assert (B2 : between 0 0x7FF r = true) by (unfold between, r; lia).
  rewrite B1, B2. f_equal; [|f_equal]; apply byte_of_val.
  - rewrite Z.shiftr_div_pow2 by lia.
    rewrite (tag_lor 0xC0 3 6) by (try reflexivity; try lia;
      change (2 ^ 6)%Z with 64%Z; unfold r; Z.div_mod_to_equations; lia).
    change (2 ^ 6)%Z with 64%Z. unfold r. Z.div_mod_to_equations. lia.
  - rewrite (land_mod _ 6 0x3F) by (lia || reflexivity).
    rewrite (tag_lor 0x80 2 6) by (try reflexivity; try lia;
      change (2 ^ 6)%Z with 64%Z; unfold r; Z.div_mod_to_equations; lia).
    change (2 ^ 6)%Z with 64%Z. unfold r. Z.div_mod_to_equations. lia.
Qed.

Ltac payload r :=
  first [ rewrite Z.shiftr_div_pow2 by lia | idtac ];
  first [ rewrite (land_mod _ 6 0x3F) by (lia || reflexivity) | idtac ];
  match goal with
  | |- Z.lor ?t _ = _ =>
      first [ rewrite (tag_lor t 2 6)
                by (try reflexivity; try lia; unfold r;
                    change (2 ^ 6)%Z with 64%Z; change (2 ^ 12)%Z with 4096%Z;
                    change (2 ^ 18)%Z with 262144%Z;
                    Z.div_mod_to_equations; lia)
            | rewrite (tag_lor t 14 4)
                by (try reflexivity; try lia; unfold r;
                    change (2 ^ 4)%Z with 16%Z; change (2 ^ 12)%Z with 4096%Z;
                    Z.div_mod_to_equations; lia)
            | rewrite (tag_lor t 30 3)
                by (try reflexivity; try lia; unfold r;
                    change (2 ^ 3)%Z with 8%Z; change (2 ^ 18)%Z with 262144%Z;
                    Z.div_mod_to_equations; lia) ]
  end;
  unfold r; change (2 ^ 6)%Z with 64%Z; change (2 ^ 12)%Z with 4096%Z;
  change (2 ^ 18)%Z with 262144%Z; Z.div_mod_to_equations; lia.

Lemma AppendRune3 (c0 c1 c2 : ascii) :
  (0xE0 <= byte_val c0 <= 0xEF -> 0x80 <= byte_val c1 <= 0xBF ->
   0x80 <= byte_val c2 <= 0xBF ->
   (byte_val c0 = 0xE0 -> 0xA0 <= byte_val c1) ->
   (byte_val c0 = 0xED -> byte_val c1 <= 0x9F) ->
   let r := (byte_val c0 - 0xE0) * 4096 + (byte_val c1 - 0x80) * 64 +
            (byte_val c2 - 0x80) in
   utf8.AppendRune r = String c0 (String c1 (String c2 "")) /\
   0x800 <= r <= 0xFFFF /\ utf8.ValidRune r = true)%Z.
Proof.
  intros H0 H1 H2 Hlo Hhi r.
  assert (R : (0x800 <= r <= 0xFFFF)%Z) by (unfold r; lia).
  assert (V : utf8.ValidRune r = true).
  { unfold utf8.ValidRune, utf8.MaxRune, between.
    destruct (Z.eq_dec (byte_val c0) 0xED) as [E | E]; unfold r; lia. }
  split; [|split; assumption].
  unfold utf8.AppendRune.
  assert (B1 : between 0 0x7F r = false) by (unfold between; lia).
  assert (B2 : between 0 0x7FF r = false) by (unfold between; lia).
  assert (B3 : (r <=? 0xFFFF)%Z = true) by lia.
  rewrite B1, B2, V, B3. cbn [negb]. unfold utf8.encode3.
  f_equal; [|f_equal; [|f_equal]]; apply byte_of_val; payload r.
Qed.

Lemma AppendRune4 (c0 c1 c2 c3 : ascii) :
  (0xF0 <= byte_val c0 <= 0xF4 -> 0x80 <= byte_val c1 <= 0xBF ->
   0x80 <= byte_val c2 <= 0xBF -> 0x80 <= byte_val c3 <= 0xBF ->
   (byte_val c0 = 0xF0 -> 0x90 <= byte_val c1) ->
   (byte_val c0 = 0xF4 -> byte_val c1 <= 0x8F) ->
   let r := (byte_val c0 - 0xF0) * 262144 + (byte_val c1 - 0x80) * 4096 +
            (byte_val c2 - 0x80) * 64 + (byte_val c3 - 0x80) in
   utf8.AppendRune r = String c0 (String c1 (String c2 (String c3 ""))) /\
   0x10000 <= r <= 0x10FFFF /\ utf8.ValidRune r = true)%Z.
Proof.
  intros H0 H1 H2 H3 Hlo Hhi r.
  assert (R : (0x10000 <= r <= 0x10FFFF)%Z) by (unfold r; lia).
  assert (V : utf8.ValidRune r = true).
  { unfold utf8.ValidRune, utf8.MaxRune, between. lia. }
  split; [|split; assumption].
  unfold utf8.AppendRune.
  assert (B1 : between 0 0x7F r = false) by (unfold between; lia).
  assert (B2 : between 0 0x7FF r = false) by (unfold between; lia).
  assert (B3 : (r <=? 0xFFFF)%Z = false) by lia.
  rewrite B1, B2, V, B3. cbn [negb].
  f_equal; [|f_equal; [|f_equal; [|f_equal]]]; apply byte_of_val; payload r.
Qed.

(** A multi-byte sequence that decodes is the encoding of its rune. *)
Lemma Decode_valid (s : string) (r : rune) (w : nat) :
  utf8.DecodeRuneInString s = (r, w) -> 2 <= w ->
  utf8.AppendRune r = take w s /\
  (0x80 <= r)%Z /\ utf8.ValidRune r = true /\
  (take w s ++ drop w s)%string = s.
Proof.
  destruct s as [|c0 rest];
    [intros H; apply pair_equal_spec in H; destruct H as [_ <-]; lia|].
  unfold utf8.DecodeRuneInString, utf8.first, utf8.cont. cbv beta iota zeta.
  repeat match goal with
         | |- context [if ?c then _ else _] => destruct c eqn:?; cbv beta iota zeta
         | |- context [match ?x with EmptyString => _ | String _ _ => _ end] =>
             destruct x; cbv beta iota zeta
         end;
    intros H Hw; apply pair_equal_spec in H; destruct H as [<- <-]; try lia.
  all: try (match goal with
            | H : Nat.leb _ _ = _ |- _ => vm_compute in H; discriminate H
            end).
  all: unfold between in *; cbn [take drop append].
  all: match goal with
       | |- _ = String ?c0 (String ?c1 EmptyString) /\ _ =>
           rewrite rune2_val by lia;
           pose proof (AppendRune2 c0 c1 ltac:(lia) ltac:(lia)) as E;
           split; [exact E|]; split; [lia|]; split; [|reflexivity];
           unfold utf8.ValidRune, utf8.MaxRune, between; lia
       | |- _ = String ?c0 (String ?c1 (String ?c2 EmptyString)) /\ _ =>
           rewrite rune3_val by lia;
           destruct (AppendRune3 c0 c1 c2 ltac:(lia) ltac:(lia) ltac:(lia)
                       ltac:(lia) ltac:(lia)) as (E & R & V);
           split; [exact E|]; split; [lia|]; split; [exact V | reflexivity]
       | |- _ = String ?c0 (String ?c1 (String ?c2 (String ?c3 EmptyString))) /\ _ =>
           rewrite rune4_val by lia;
           destruct (AppendRune4 c0 c1 c2 c3 ltac:(lia) ltac:(lia) ltac:(lia)
                       ltac:(lia) ltac:(lia) ltac:(lia)) as (E & R & V);
           split; [exact E|]; split; [lia|]; split; [exact V | reflexivity]
       end.
Qed.

Lemma Decode_cases (c0 : ascii) (rest : string) (r : rune) (w : nat) :
  utf8.DecodeRuneInString (String c0 rest) = (r, w) ->
  (utf8.RuneSelf <= byte_val c0)%Z ->
  2 <= w \/ (w = 1 /\ r = utf8.RuneError).
Proof.
  unfold utf8.DecodeRuneInString, utf8.first, utf8.cont. cbv beta iota zeta.
  repeat match goal with
         | |- context [if ?c then _ else _] => destruct c eqn:?; cbv beta iota zeta
         | |- context [match ?x with EmptyString => _ | String _ _ => _ end] =>
             destruct x; cbv beta iota zeta
         end;
    intros H Hs; apply pair_equal_spec in H; destruct H as [<- <-];
    try (left; lia); try (right; split; reflexivity); lia.
Qed.

Lemma land_15_range (x : Z) : (0 <= Z.land x 0xF < 16)%Z.
Proof.
  rewrite (land_mod x 4 0xF) by (lia || reflexivity).
  apply Z.mod_pos_bound. reflexivity.
Qed.

Lemma hexval_lowerhex (d : Z) :
  (0 <= d < 16)%Z -> hexval (strconv.lowerhex d) = Some d.
Proof.
  intros H. destruct d as [|p|p]; [reflexivity| |lia].
  do 4 (destruct p as [p|p|]; try lia; try reflexivity).
Qed.

Lemma hexvals_digits (r acc : Z) (shifts : list Z) :
  hexvals acc (list_ascii_of_string (strconv.hexdigits r shifts)) =
  Some (fold_left (fun a sh => a * 16 + Z.land (Z.shiftr r sh) 0xF)%Z shifts acc).
Proof.
  revert acc. induction shifts as [|sh rest IH]; intros acc; [reflexivity|].
  cbn [strconv.hexdigits list_ascii_of_string hexvals fold_left].
  rewrite hexval_lowerhex by apply land_15_range. apply IH.
Qed.

Lemma hex2_value (r : Z) :
  (0 <= r < 256)%Z ->
  fold_left (fun a sh => a * 16 + Z.land (Z.shiftr r sh) 0xF)%Z [4; 0]%Z 0%Z = r.
Proof.
  intros H. cbn [fold_left].
  rewrite !(land_mod _ 4 0xF), !Z.shiftr_div_pow2 by (lia || reflexivity).
  change (2 ^ 4)%Z with 16%Z. change (2 ^ 0)%Z with 1%Z.
  Z.div_mod_to_equations. lia.
Qed.

Lemma hex4_value (r : Z) :
  (0 <= r < 65536)%Z ->
  fold_left (fun a sh => a * 16 + Z.land (Z.shiftr r sh) 0xF)%Z [12; 8; 4; 0]%Z 0%Z = r.
Proof.
  intros H. cbn [fold_left].
  rewrite !(land_mod _ 4 0xF), !Z.shiftr_div_pow2 by (lia || reflexivity).
  change (2 ^ 4)%Z with 16%Z. change (2 ^ 0)%Z with 1%Z.
  change (2 ^ 8)%Z with 256%Z. change (2 ^ 12)%Z with 4096%Z.
  Z.div_mod_to_equations. lia.
Qed.

Lemma hex8_value (r : Z) :
  (0 <= r < 4294967296)%Z ->
  fold_left (fun a sh => a * 16 + Z.land (Z.shiftr r sh) 0xF)%Z
    [28; 24; 20; 16; 12; 8; 4; 0]%Z 0%Z = r.
Proof.
  intros H. cbn [fold_left].
  rewrite !(land_mod _ 4 0xF), !Z.shiftr_div_pow2 by (lia || reflexivity).
  change (2 ^ 4)%Z with 16%Z. change (2 ^ 0)%Z with 1%Z.
  change (2 ^ 8)%Z with 256%Z. change (2 ^ 12)%Z with 4096%Z.
  change (2 ^ 16)%Z with 65536%Z. change (2 ^ 20)%Z with 1048576%Z.
  change (2 ^ 24)%Z with 16777216%Z. change (2 ^ 28)%Z with 268435456%Z.
  Z.div_mod_to_equations. lia.
Qed.

Lemma prepend_prepend (a b : string) (x : option string) :
  prepend (Some a) (prepend (Some b) x) = prepend (Some (a ++ b)%string) x.
Proof. destruct x as [t|]; simpl; [now rewrite append_assoc | reflexivity]. Qed.

(** Bytes that need no escape are read back as they are. *)
Lemma unquote_plain (p u : string) :
  plain p = true -> unquote (p ++ u) = prepend (Some p) (unquote u).
Proof.
  induction p as [|c p IH]; intros H.
  - simpl. now destruct (unquote u).
  - simpl in H. apply andb_true_iff in H as [Hc Hp].
    unfold plain_byte in Hc. apply andb_true_iff in Hc as [Hb Hq].
    apply negb_true_iff in Hb, Hq.
    cbn [append unquote]. rewrite Hb, Hq, (IH Hp).
    now rewrite prepend_prepend.
Qed.

(** An ASCII byte is read back from what the quoting loop writes for it. *)
Lemma unquote_ascii (c : ascii) (u : string) :
  (byte_val c < utf8.RuneSelf)%Z ->
  unquote (strconv.appendEscapedRune isPrint_table (byte_val c) ++ u) =
  prepend (Some (String c "")) (unquote u).
Proof.
  destruct c as [[] [] [] [] [] [] [] []]; intros H;
    try (exfalso; revert H; vm_compute; congruence); reflexivity.
Qed.

(** So is a byte written as [\x] and two digits. *)
Lemma unquote_hex_byte (c : ascii) (u : string) :
  unquote (("\x" ++ strconv.hexdigits (byte_val c) [4; 0]%Z) ++ u) =
  prepend (Some (String c "")) (unquote u).
Proof. destruct c as [[] [] [] [] [] [] [] []]; reflexivity. Qed.

Lemma unquote_u (h1 h2 h3 h4 : ascii) (u : string) :
  unquote (String backslash (String "u"
             (String h1 (String h2 (String h3 (String h4 u)))))) =
  prepend (rune_bytes [h1; h2; h3; h4]) (unquote u).
Proof. reflexivity. Qed.

Lemma unquote_U (h1 h2 h3 h4 h5 h6 h7 h8 : ascii) (u : string) :
  unquote (String backslash (String "U"
             (String h1 (String h2 (String h3 (String h4
             (String h5 (String h6 (String h7 (String h8 u)))))))))) =
  prepend (rune_bytes [h1; h2; h3; h4; h5; h6; h7; h8]) (unquote u).
Proof. reflexivity. Qed.

Lemma rune_bytes_digits (r : rune) (shifts : list Z) :
  fold_left (fun a sh => a * 16 + Z.land (Z.shiftr r sh) 0xF)%Z shifts 0%Z = r ->
  utf8.ValidRune r = true ->
  rune_bytes (list_ascii_of_string (strconv.hexdigits r shifts)) =
  Some (utf8.AppendRune r).
Proof.
  intros F V. unfold rune_bytes. now rewrite hexvals_digits, F, V.
Qed.

(** A rune outside ASCII is read back as its UTF-8 encoding, whether it was
    written raw or as a [\u] or [\U] escape. *)
Lemma unquote_rune (r : rune) (u : string) :
  (utf8.RuneSelf <= r)%Z -> utf8.ValidRune r = true ->
  unquote (strconv.appendEscapedRune isPrint_table r ++ u) =
  prepend (Some (utf8.AppendRune r)) (unquote u).
Proof.
  intros R V. unfold utf8.RuneSelf in R.
  assert (M : (r <= 0x10FFFF)%Z).
  { unfold utf8.ValidRune, utf8.MaxRune, between in V. lia. }
  unfold strconv.appendEscapedRune.
  change (byte_val dquote) with 34%Z. change (byte_val backslash) with 92%Z.
  replace ((r =? 34)%Z || (r =? 92)%Z) with false by lia.
  destruct (strconv.IsPrint isPrint_table r).
  { apply unquote_plain, plain_AppendRune;
      [change (byte_val dquote) with 34%Z | change (byte_val backslash) with 92%Z]; lia. }
  replace (r =? 7)%Z with false by lia. replace (r =? 8)%Z with false by lia.
  replace (r =? 12)%Z with false by lia. replace (r =? 10)%Z with false by lia.
  replace (r =? 13)%Z with false by lia. replace (r =? 9)%Z with false by lia.
  replace (r =? 11)%Z with false by lia.
  replace ((r <? 32)%Z || (r =? 127)%Z) with false by lia.
  rewrite V. cbn [negb orb].
  destruct (r <? 65536)%Z eqn:L.
  - cbn [strconv.hexdigits append]. rewrite unquote_u.
    change [strconv.lowerhex (Z.land (Z.shiftr r 12) 15);
            strconv.lowerhex (Z.land (Z.shiftr r 8) 15);
            strconv.lowerhex (Z.land (Z.shiftr r 4) 15);
            strconv.lowerhex (Z.land (Z.shiftr r 0) 15)]
      with (list_ascii_of_string (strconv.hexdigits r [12; 8; 4; 0]%Z)).
    rewrite rune_bytes_digits; [reflexivity | apply hex4_value; lia | exact V].
  - cbn [strconv.hexdigits append]. rewrite unquote_U.
    change [strconv.lowerhex (Z.land (Z.shiftr r 28) 15);
            strconv.lowerhex (Z.land (Z.shiftr r 24) 15);
            strconv.lowerhex (Z.land (Z.shiftr r 20) 15);
            strconv.lowerhex (Z.land (Z.shiftr r 16) 15);
            strconv.lowerhex (Z.land (Z.shiftr r 12) 15);
            strconv.lowerhex (Z.land (Z.shiftr r 8) 15);
            strconv.lowerhex (Z.land (Z.shiftr r 4) 15);
            strconv.lowerhex (Z.land (Z.shiftr r 0) 15)]
      with (list_ascii_of_string
              (strconv.hexdigits r [28; 24; 20; 16; 12; 8; 4; 0]%Z)).
    rewrite rune_bytes_digits; [reflexivity | apply hex8_value; lia | exact V].
Qed.

Lemma take_drop (n : nat) (s : string) : (take n s ++ drop n s)%string = s.
Proof.
  revert s. induction n as [|n IH]; intros [|c s]; simpl; try reflexivity.
  now rewrite IH.
Qed.

(** Reading back what the quoting loop wrote gives the text, byte for
    byte, whatever the bytes. *)
Lemma unquote_quote_loop (fuel : nat) (s u : string) :
  String.length s <= fuel ->
  unquote (strconv.quote_loop isPrint_table fuel s ++ u) =
  prepend (Some s) (unquote u).
Proof.
  revert s u. induction fuel as [|fuel IH]; intros s u Hf.
  - destruct s; [|simpl in Hf; lia]. simpl. now destruct (unquote u).
  - destruct s as [|c0 s']; [simpl; now destruct (unquote u)|].
    cbn [strconv.quote_loop]. cbn [String.length] in Hf.
    destruct (utf8.RuneSelf <=? byte_val c0)%Z eqn:A.
    + destruct (utf8.DecodeRuneInString (String c0 s')) as [r w] eqn:D.
      destruct (Decode_cases c0 s' r w D ltac:(lia)) as [Hw | [-> ->]].
      * destruct (Decode_valid _ r w D Hw) as (E & R & V & TD).
        replace ((w =? 1)%nat && (r =? utf8.RuneError)%Z) with false
          by (destruct w as [|[|w]]; [lia | lia | reflexivity]).
        rewrite append_assoc, unquote_rune, IH, prepend_prepend, E, TD;
          [reflexivity | | exact R | exact V].
        rewrite length_drop. cbn [String.length]. lia.
      * cbn [Nat.eqb andb]. rewrite Z.eqb_refl.
        rewrite append_assoc, unquote_hex_byte.
        cbn [drop]. rewrite IH by lia. now rewrite prepend_prepend.
    + replace ((1 =? 1)%nat && (byte_val c0 =? utf8.RuneError)%Z) with false
        by (unfold utf8.RuneSelf, utf8.RuneError in *; cbn [Nat.eqb andb]; lia).
      rewrite append_assoc, unquote_ascii by lia.
      cbn [drop]. rewrite IH by lia. now rewrite prepend_prepend.
Qed.

Lemma unquote_Quote_body (s : string) :
  unquote (strconv.quote_loop isPrint_table (String.length s) s) = Some s.
Proof.
  rewrite <- (append_empty (strconv.quote_loop _ _ _)).
  rewrite unquote_quote_loop by lia. simpl. now rewrite append_empty.
Qed.

Lemma produced_shape (x : errval) :
  produced x ->
  (exists y, x = formatted y) \/ (exists p msg y, x = wrapError p msg y).
Proof.
  intros [cs message w E | cs format args w E | cs err w E | cs err w E
         | cs err message w E | cs err format args w E
         | err message w E | err format args w E].
  - left. injection E as <-. eauto.
  - left. injection E as <-. eauto.
  - destruct err as [e|]; [|discriminate]. unfold WithStack in E.
    destruct (ensureStack_carries (return_pc 122 :: cs) e w) as (y & Ey & _).
    left. exists y. congruence.
  - destruct err as [e|]; [|discriminate]. unfold EnsureStack in E.
    destruct (ensureStack_carries (return_pc 130 :: cs) e w) as (y & Ey & _).
    left. exists y. congruence.
  - destruct err as [e|]; [|discriminate].
    destruct (Wrap_run cs e message w) as (p & y & Ey & _).
    left. eexists. rewrite Ey in E. injection E as <-. reflexivity.
  - destruct err as [e|]; [|discriminate]. left.
    unfold Wrapf, bind in E.
    destruct (ensureStack _ _ w) as [inner w1].
    destruct (fmt_Errorf_s_w _ inner w1) as [y w2].
    injection E as <-. eauto.
  - destruct err as [e|]; [|discriminate]. right.
    injection E as <-. eauto.
  - destruct err as [e|]; [|discriminate]. right.
    injection E as <-. eauto.
Qed.

(** C8, amended: for every error returned by the constructors of the
    package (New, Errorf, WithStack, EnsureStack, Wrap, Wrapf, WithMessage,
    WithMessagef), the verb %q writes the short-form text, what %s writes and
    [Error()] returns, passed through [strconv.Quote]: a quotation mark, the
    text in escaped form, a quotation mark.  Every quotation mark of the body
    is escaped by a backslash; reading the body back gives the text, byte
    for byte, whatever the bytes; and on printable ASCII text the only bytes
    added are the backslashes before quotation marks and backslashes. *)
Theorem C8_quoted_verb (x : errval) :
  produced x ->
  quoted x = Quote (short x) /\
  short x = Error x /\
  exists body,
    quoted x = String dquote (body ++ String dquote "") /\
    well_escaped body = true /\
    unquote body = Some (short x) /\
    (printable_ascii (short x) = true -> unbackslash body = short x).
Proof.
  intros P.
  assert (H : quoted x = Quote (short x) /\ short x = Error x).
  { destruct (produced_shape x P) as [(y & ->) | (p & msg & y & ->)];
      split; reflexivity. }
  destruct H as [Hq Hs]. split; [exact Hq|]. split; [exact Hs|].
  exists (strconv.quote_loop isPrint_table (String.length (short x)) (short x)).
  rewrite Hq. split; [reflexivity|]. split; [|split].
  - rewrite <- (append_empty (strconv.quote_loop _ _ _)).
    apply well_escaped_quote_loop.
  - apply unquote_Quote_body.
  - intros Hp. apply unbackslash_quote_loop; [exact Hp | lia].
Qed.

(** ** Further properties of the constructors *)

Lemma In_chain_length (y z : errval) :
  In y (chain z) -> length (chain y) <= length (chain z).
Proof.
  induction z as [z IH] using Unwrap_ind. intros H.
  rewrite (chain_Unwrap z) in H |- *. destruct H as [<- | H].
  - rewrite <- chain_Unwrap. lia.
  - destruct (Unwrap (Some z)) as [z'|] eqn:U; [|contradiction].
    specialize (IH z' eq_refl H). simpl in *. lia.
Qed.

(** A node is never a node of the chain below it. *)
Lemma not_In_own_cause (y z : errval) :
  Unwrap (Some z) = Some y -> ~ In z (chain y).
Proof.
  intros U H. apply In_chain_length in H.
  rewrite (chain_Unwrap z), U in H. simpl in H. lia.
Qed.

(** X1: on a present error whose chain has no StackTrace, EnsureStack and
    WithStack capture exactly the call stack they were called on (their own
    frame is skipped), once, and put the error unchanged under
    [formatted{withStack{err, stack}}]: two Unwraps give err back, the
    message is that of err, and Cause is the new [withStack] node. *)
Theorem X1_EnsureStack_captures (cs : list uintptr) (e : errval) (w : world) :
  ~ carries_stack e ->
  let node := withStack e (mkStack (brk w) cs) in
  let w' := mkWorld (N.succ (brk w)) (cs :: snapshots w) in
  EnsureStack cs (Some e) w = (Some (formatted node), w') /\
  WithStack cs (Some e) w = (Some (formatted node), w') /\
  trace_of (Some (formatted node)) = Some cs /\
  Unwrap (Unwrap (Some (formatted node))) = Some e /\
  Error (formatted node) = Error e /\
  Cause (Some (formatted node)) = Some node.
Proof.
  intros Hn node w'. apply not_carries_As in Hn.
  unfold EnsureStack, WithStack. rewrite !(ensureStack_capture _ _ _ Hn).
  repeat split; unfold node; now rewrite Cause_formatted, Cause_withStack.
Qed.

(** X2: EnsureStack never hands back the error it is given: for a present
    error the result is a [formatted] value different from it, whose chain
    is one node longer when the error already carries a stack and two nodes
    longer when it does not; so each further call adds a layer. *)
Theorem X2_EnsureStack_never_as_is (cs : list uintptr) (e : errval) (w : world) :
  exists x,
    fst (EnsureStack cs (Some e) w) = Some (formatted x) /\
    formatted x <> e /\
    In e (chain (formatted x)) /\
    length (chain (formatted x)) =
      length (chain e) +
      match As stackTracer (Some e) with Some _ => 1 | None => 2 end.
Proof.
  unfold EnsureStack.
  destruct (As stackTracer (Some e)) as [st|] eqn:A.
  - assert (C : carries_stack e) by (apply carries_stack_As; eauto).
    rewrite (ensureStack_reuse _ _ _ C). exists e.
    split; [reflexivity|]. split; [|split].
    + intros E. apply (not_In_own_cause e (formatted e) eq_refl).
      rewrite E. apply In_chain_self.
    + right. apply In_chain_self.
    + simpl. lia.
  - rewrite (ensureStack_capture _ _ _ A). eexists.
    split; [reflexivity|]. split; [|split].
    + intros E.
      assert (H : In e (chain (withStack e (mkStack (brk w) (skipn 1 (return_pc 130 :: cs))))))
        by (right; apply In_chain_self).
      apply In_chain_length in H. rewrite <- E in H at 1. simpl in H. lia.
    + right. right. apply In_chain_self.
    + simpl. lia.
Qed.

(** X3: the deprecated alias and the formatting variants are
    interchangeable with the plain functions, the captured stack included:
    WithStack is EnsureStack, Wrapf is Wrap of the formatted message,
    WithMessagef is WithMessage of the formatted message, for nil and
    non-nil errors alike. *)
Theorem X3_variants_agree (cs : list uintptr) (err : error)
    (format : string) (args : list any) (w : world) :
  WithStack cs err w = EnsureStack cs err w /\
  Wrapf cs err format args w = Wrap cs err (Sprintf format args) w /\
  WithMessagef err format args w = WithMessage err (Sprintf format args) w.
Proof.
  destruct err as [e|]; [|repeat split].
  unfold WithStack, EnsureStack, Wrapf, Wrap, bind, ensureStack.
  destruct (As stackTracer (Some e)); repeat split.
Qed.

(** X4: WithMessage on a present error allocates one [*fmt.wrapError] whose
    Unwrap is the error, takes no snapshot even when the error carries no
    stack, and changes neither the stack trace the error carries nor what
    Cause returns; as its result has no Format method of its own, %+v prints
    it like %v, without any stack. *)
Theorem X4_WithMessage_layer (e : errval) (message : string) (w : world) :
  let r := wrapError (brk w) (message ++ ": " ++ short_v e) e in
  WithMessage (Some e) message w =
    (Some r, mkWorld (N.succ (brk w)) (snapshots w)) /\
  Unwrap (Some r) = Some e /\
  trace_of (Some r) = trace_of (Some e) /\
  Cause (Some r) = Cause (Some e) /\
  (carries_stack r <-> carries_stack e) /\
  extended r = Error r /\
  short_v r = Error r.
Proof.
  intros r. repeat split.
  - apply Cause_wrapError.
  - intros C. apply carries_stack_As in C. apply carries_stack_As.
    unfold r in C. now rewrite As_wrapError in C.
  - intros C. apply carries_stack_As in C. apply carries_stack_As.
    unfold r. now rewrite As_wrapError.
Qed.

Lemma last_chain_In (e : errval) : In (last (chain e) e) (chain e).
Proof.
  induction e as [e IH] using Unwrap_ind.
  destruct (Unwrap (Some e)) as [e'|] eqn:U.
  - rewrite (last_chain_Unwrap _ _ U).
    eapply In_chain_Unwrap; [exact U | apply (IH e' eq_refl)].
  - rewrite chain_Unwrap, U. now left.
Qed.

Lemma carries_stack_Cause (x : errval) :
  carries_stack x ->
  exists c t, Cause (Some x) = Some c /\
              In c (chain x) /\
              StackTrace_method c = Some t /\
              trace_of (Some x) = Some t.
Proof.
  intros C. apply carries_stack_As in C as (st & A).
  pose proof (As_implements _ _ _ A) as Hst.
  pose proof (find_some _ _ A) as [Hin _].
  unfold stackTracer in Hst.
  destruct (StackTrace_method st) as [t|] eqn:T; [|discriminate].
  exists st, t. unfold trace_of. rewrite A, (Cause_found _ _ A). auto.
Qed.

Lemma stack_forcing_carries (x : errval) :
  stack_forcing x -> exists y, x = formatted y /\ carries_stack x.
Proof.
  assert (F : forall y, carries_stack y -> carries_stack (formatted y)).
  { intros y C. apply carries_stack_As in C. apply carries_stack_As.
    now rewrite As_formatted. }
  assert (E : forall sites e w, fst (ensureStack sites (Some e) w) = Some x ->
              exists y, x = formatted y /\ carries_stack x).
  { intros sites e w H.
    destruct (ensureStack_carries sites e w) as (y & Ey & C & _).
    exists y. split; congruence. }
  assert (W : forall sites e m w,
              fst (bind (ensureStack sites (Some e))
                     (fun inner => bind (fmt_Errorf_s_w m inner)
                                     (fun v => ret (Some (formatted v)))) w) = Some x ->
              exists y, x = formatted y /\ carries_stack x).
  { intros sites e m w H. unfold bind in H.
    destruct (ensureStack_carries sites e w) as (y & Ey & C & _).
    destruct (ensureStack sites (Some e) w) as [inner w1].
    simpl in Ey. subst inner. simpl in H. injection H as <-.
    eexists. split; [reflexivity|].
    apply carries_stack_As. rewrite As_formatted, As_wrapError.
    now apply carries_stack_As. }
  intros [cs message w H | cs format args w H | cs err w H | cs err w H
         | cs err message w H | cs err format args w H].
  - injection H as <-. eexists. split; [reflexivity|].
    apply F. eexists. split; [left; reflexivity | reflexivity].
  - injection H as <-. eexists. split; [reflexivity|].
    apply F. eexists. split; [left; reflexivity | reflexivity].
  - destruct err as [e|]; [|discriminate]. exact (E _ _ _ H).
  - destruct err as [e|]; [|discriminate]. exact (E _ _ _ H).
  - destruct err as [e|]; [|discriminate]. exact (W _ _ _ _ H).
  - destruct err as [e|]; [|discriminate]. exact (W _ _ _ _ H).
Qed.

(** X5: every error returned by New, Errorf, WithStack, EnsureStack, Wrap
    or Wrapf is a [formatted] value that carries a stack: Cause of it is a
    node of its chain with the StackTrace method, and the trace of that node
    is the trace the error carries. *)
Theorem X5_forcing_constructors_carry_stack (x : errval) :
  stack_forcing x ->
  has_Format x = true /\
  exists c t, Cause (Some x) = Some c /\
              In c (chain x) /\
              StackTrace_method c = Some t /\
              trace_of (Some x) = Some t.
Proof.
  intros S. destruct (stack_forcing_carries x S) as (y & -> & C).
  split; [reflexivity | exact (carries_stack_Cause _ C)].
Qed.

(** X6: for every present error, Cause returns a node of the error's own
    chain, never nil; the StackTrace of that node is the trace the error
    carries, and when that node has no StackTrace it is the last node of
    the chain and no node of the chain has one. *)
Theorem X6_Cause_in_chain (e : errval) :
  exists c,
    Cause (Some e) = Some c /\
    In c (chain e) /\
    StackTrace_method c = trace_of (Some e) /\
    (StackTrace_method c = None ->
       c = last (chain e) e /\
       forall y, In y (chain e) -> StackTrace_method y = None).
Proof.
  destruct (As stackTracer (Some e)) as [st|] eqn:A.
  - assert (C : carries_stack e) by (apply carries_stack_As; eauto).
    destruct (carries_stack_Cause e C) as (c & t & Hc & Hin & Ht & Htr).
    exists c. rewrite Htr. repeat split; try assumption; congruence.
  - exists (last (chain e) e).
    pose proof (find_none _ _ A) as Hnone.
    assert (Hall : forall y, In y (chain e) -> StackTrace_method y = None).
    { intros y Hy. specialize (Hnone y Hy). unfold stackTracer in Hnone.
      destruct (StackTrace_method y); [discriminate | reflexivity]. }
    split; [now apply Cause_leaf|]. split; [apply last_chain_In|].
    unfold trace_of. rewrite A. split; [apply Hall, last_chain_In|].
    intros _. split; [reflexivity | exact Hall].
Qed.

(** X7: Errorf captures unconditionally, like New: it always takes one
    snapshot of the call stack it was called on and puts the error built by
    fmt.Errorf under a new [withStack] node, which is what Cause returns,
    even when that error already wraps one that carries a stack; in that
    case the chain has two nodes with a StackTrace. *)
Theorem X7_Errorf_always_captures (cs : list uintptr) (format : string)
    (args : list any) (w : world) :
  let inner := fmt_Errorf format args (brk w) in
  let node := withStack inner (mkStack (N.succ (brk w)) cs) in
  Errorf cs format args w =
    (Some (formatted node),
     mkWorld (N.succ (N.succ (brk w))) (cs :: snapshots w)) /\
  Cause (Some (formatted node)) = Some node /\
  trace_of (Some (formatted node)) = Some cs /\
  Error (formatted node) = Error inner /\
  short (formatted node) = Error inner /\
  (forall x, In x (chain inner) -> stackTracer x = true ->
     x <> node /\ In x (chain (formatted node)) /\ In node (chain (formatted node))).
Proof.
  intros inner node. split; [reflexivity|].
  split; [unfold node; now rewrite Cause_formatted, Cause_withStack|].
  repeat split.
  - intros ->. exact (not_In_own_cause inner node eq_refl H).
  - right. right. exact H.
  - right. apply In_chain_self.
Qed.

(** ** Messages and snapshots along a sequence of annotations *)

Lemma annotate_text (a : annotation) (y : errval) (w : world) :
  short_v y = Error y ->
  exists top,
    fst (annotate a (Some y) w) = Some top /\
    Error top = match message_of a with
                | Some m => (m ++ ": " ++ Error y)%string
                | None => Error y
                end /\
    short_v top = Error top /\
    short top = Error top.
Proof.
  intros Hy.
  assert (W : forall sites m,
             exists top,
               fst (bind (ensureStack sites (Some y))
                      (fun inner => bind (fmt_Errorf_s_w m inner)
                                      (fun v => ret (Some (formatted v)))) w) = Some top /\
               Error top = (m ++ ": " ++ Error y)%string /\
               short_v top = Error top /\ short top = Error top).
  { intros sites m. unfold bind.
    destruct (ensureStack_carries sites y w) as (x & Ex & _ & Hx).
    destruct (ensureStack sites (Some y) w) as [inner w1].
    simpl in Ex. subst inner. simpl. eexists. split; [reflexivity|].
    simpl. rewrite fmt_operand_formatted, Hx by now left. repeat split. }
  destruct a as [cs m | cs f args | m | f args | cs]; cbn [annotate message_of].
  - apply W.
  - apply W.
  - simpl. eexists. split; [reflexivity|]. simpl.
    unfold short_v in Hy. rewrite Hy. repeat split.
  - simpl. eexists. split; [reflexivity|]. simpl.
    unfold short_v in Hy. rewrite Hy. repeat split.
  - unfold EnsureStack.
    destruct (ensureStack_carries (return_pc 130 :: cs) y w) as (x & Ex & _ & Hx).
    exists (formatted x). split; [exact Ex|]. repeat split; exact Hx.
Qed.

Lemma annotate_all_text (ops : list annotation) (e : errval) (w : world) :
  short_v e = Error e ->
  exists r,
    fst (annotate_all ops (Some e) w) = Some r /\
    Error r = text_after ops (Error e) /\
    short_v r = Error r /\
    (short e = Error e \/ ops <> [] -> short r = Error r).
Proof.
  revert e w. induction ops as [|a ops IH]; intros e w He.
  - exists e. repeat split; try assumption. intros [H | H]; [exact H | congruence].
  - rewrite annotate_all_cons.
    destruct (annotate_text a e w He) as (top & Et & Htext & Hv & Hs).
    rewrite Et.
    destruct (IH top (snd (annotate a (Some e) w)) Hv) as (r & Er & Hr & Hrv & Hrs).
    exists r. split; [exact Er|]. split; [|split].
    + rewrite Hr, Htext. reflexivity.
    + exact Hrv.
    + intros _. apply Hrs. now left.
Qed.

(** X8: messages accumulate outermost first whatever the mix of
    operations.  On an error that %v prints as its message, after any
    sequence of Wrap, Wrapf, WithMessage, WithMessagef and EnsureStack the
    text of the result is each added message followed by colon and space, the
    last added first, then the message of the error; EnsureStack adds no
    text; and %v (and, once something was applied, %s) prints that text. *)
Theorem X8_messages_accumulate (ops : list annotation) (e : errval) (w : world) :
  short_v e = Error e ->
  exists r,
    fst (annotate_all ops (Some e) w) = Some r /\
    Error r = text_after ops (Error e) /\
    short_v r = Error r /\
    (ops <> [] -> short r = Error r).
Proof.
  intros He. destruct (annotate_all_text ops e w He) as (r & Er & Ht & Hv & Hs).
  exists r. repeat split; try assumption. intros H. apply Hs. now right.
Qed.

Lemma annotate_capture (a : annotation) (y : errval) (w : world) :
  exists top,
    fst (annotate a (Some y) w) = Some top /\
    match As stackTracer (Some y) with
    | Some st =>
        As stackTracer (Some top) = Some st /\
        snapshots (snd (annotate a (Some y) w)) = snapshots w
    | None =>
        if forcing a then
          snapshots (snd (annotate a (Some y) w)) = site_of a :: snapshots w /\
          exists st, As stackTracer (Some top) = Some (withStack y st) /\
                     pcs st = site_of a
        else
          As stackTracer (Some top) = None /\
          snapshots (snd (annotate a (Some y) w)) = snapshots w
    end.
Proof.
  destruct (As stackTracer (Some y)) as [st|] eqn:A.
  - assert (C : carries_stack y) by (apply carries_stack_As; eauto).
    destruct a; cbn [annotate]; unfold Wrap, Wrapf, EnsureStack, bind;
      try rewrite (ensureStack_reuse _ _ _ C); simpl; eexists;
      (split; [reflexivity|]);
      rewrite ?As_formatted, ?As_wrapError, ?As_formatted; now split.
  - destruct a; cbn [annotate forcing message_only negb site_of];
      unfold Wrap, Wrapf, EnsureStack, bind;
      try rewrite (ensureStack_capture _ _ _ A); simpl; eexists;
      (split; [reflexivity|]);
      rewrite ?As_formatted, ?As_wrapError, ?As_formatted;
      try (now split);
      (split; [reflexivity|]); eexists;
      (split; [apply As_self; reflexivity | reflexivity]).
Qed.

Lemma annotate_all_capture (ops : list annotation) (e : errval) (w : world) :
  exists r,
    fst (annotate_all ops (Some e) w) = Some r /\
    match As stackTracer (Some e), find forcing ops with
    | Some st, _ =>
        As stackTracer (Some r) = Some st /\
        snapshots (snd (annotate_all ops (Some e) w)) = snapshots w
    | None, Some a =>
        snapshots (snd (annotate_all ops (Some e) w)) = site_of a :: snapshots w /\
        exists y st, As stackTracer (Some r) = Some (withStack y st) /\
                     pcs st = site_of a
    | None, None =>
        As stackTracer (Some r) = None /\
        snapshots (snd (annotate_all ops (Some e) w)) = snapshots w
    end.
Proof.
  revert e w. induction ops as [|a ops IH]; intros e w.
  - exists e. split; [reflexivity|]. simpl.
    destruct (As stackTracer (Some e)); now split.
  - rewrite annotate_all_cons.
    destruct (annotate_capture a e w) as (top & Et & H). rewrite Et.
    destruct (IH top (snd (annotate a (Some e) w))) as (r & Er & Hr).
    exists r. split; [exact Er|].
    destruct (As stackTracer (Some e)) as [st|] eqn:A.
    + destruct H as [At Hs]. rewrite At in Hr.
      destruct Hr as [Ar Hsr]. split; congruence.
    + cbn [find]. destruct (forcing a).
      * destruct H as [Hs (st & At & Hp)]. rewrite At in Hr.
        destruct Hr as [Ar Hsr]. split; [congruence|]. eauto.
      * destruct H as [At Hs]. rewrite At in Hr.
        destruct (find forcing ops) as [a'|].
        -- destruct Hr as [Hsr Hex]. split; [congruence | exact Hex].
        -- destruct Hr as [Ar Hsr]. split; congruence.
Qed.

(** X9: a sequence of annotations takes at most one snapshot.  On an error
    that already carries a stack, or when only WithMessage / WithMessagef are
    applied, no snapshot is taken and the trace the error carries is
    unchanged; otherwise exactly one is taken, by the first Wrap, Wrapf or
    EnsureStack of the sequence, of the call stack that operation was called
    on, and that is the trace the result carries. *)
Theorem X9_one_snapshot (ops : list annotation) (e : errval) (w : world) :
  let r := annotate_all ops (Some e) w in
  match As stackTracer (Some e), find forcing ops with
  | None, Some a =>
      snapshots (snd r) = site_of a :: snapshots w /\
      trace_of (fst r) = Some (site_of a)
  | _, _ =>
      snapshots (snd r) = snapshots w /\
      trace_of (fst r) = trace_of (Some e)
  end.
Proof.
  cbv zeta. destruct (annotate_all_capture ops e w) as (r & Er & H).
  rewrite Er. unfold trace_of.
  destruct (As stackTracer (Some e)) as [st|] eqn:A.
  - destruct H as [-> ->]. now split.
  - destruct (find forcing ops) as [a|].
    + destruct H as [-> (y & st & -> & Hp)]. split; [reflexivity|].
      simpl. unfold stack_StackTrace. now rewrite Hp.
    + destruct H as [-> ->]. now split.
Qed.

(** ** The extended format *)

Lemma As_formatTracer_formatted (e : errval) :
  As formatTracer (Some (formatted e)) = As formatTracer (Some e).
Proof. now rewrite As_step. Qed.

Lemma As_formatTracer_wrapError (p : addr) (msg : string) (e : errval) :
  As formatTracer (Some (wrapError p msg e)) = As formatTracer (Some e).
Proof. now rewrite As_step. Qed.

(** When the first node with a StackTrace is a [withStack], it is also the
    first node with both Format and StackTrace. *)
Lemma As_formatTracer_withStack (err : error) (y : errval) (st : stack) :
  As stackTracer err = Some (withStack y st) ->
  As formatTracer err = Some (withStack y st).
Proof.
  unfold As. induction (chain_of err) as [|x l IH]; simpl; [discriminate|].
  unfold formatTracer at 1. destruct (stackTracer x).
  - intros H. injection H as ->. reflexivity.
  - rewrite andb_false_r. exact IH.
Qed.

Lemma layered_formatTracer (a : annotation) (y top : errval) :
  layered a y top -> carries_stack y ->
  As formatTracer (Some top) = As formatTracer (Some y).
Proof.
  intros L C.
  destruct L as [p msg _ | top _ _ [-> | (p & msg & ->)]
                | st top _ A [-> | (p & msg & ->)]];
    rewrite ?As_formatTracer_formatted, ?As_formatTracer_wrapError,
      ?As_formatTracer_formatted; try reflexivity.
  all: apply carries_stack_As in C as (x & C); congruence.
Qed.

Lemma annotate_all_formatTracer (ops : list annotation) (e : errval) (w : world) :
  carries_stack e ->
  exists r, fst (annotate_all ops (Some e) w) = Some r /\
            As formatTracer (Some r) = As formatTracer (Some e).
Proof.
  revert e w. induction ops as [|a ops IH]; intros e w C.
  - exists e. now split.
  - rewrite annotate_all_cons.
    destruct (annotate_layered a e w) as (top & Et & L). rewrite Et.
    destruct (IH top (snd (annotate a (Some e) w))) as (r & Er & Hr).
    { eapply layered_carries; eauto. }
    exists r. split; [exact Er|].
    rewrite Hr. now apply (layered_formatTracer a).
Qed.

Lemma layered_forcing_formatted (a : annotation) (y top : errval) :
  layered a y top -> message_only a = false -> exists x, top = formatted x.
Proof.
  intros [p msg Hm | t _ _ [-> | (p & msg & ->)]
         | st t _ _ [-> | (p & msg & ->)]] Hf; eauto. congruence.
Qed.

(** X10: what %+v prints depends on the outermost layer.  When the last
    operation applied is WithMessage or WithMessagef, %+v prints the message
    only, also when the chain carries a stack.  When it is Wrap, Wrapf or
    EnsureStack, %+v prints the message followed by the Format output of the
    first node of the chain that has both Format and StackTrace, and nothing
    more when there is none.  On an error that carried no stack, that node
    is the [withStack] made by the first capturing operation: the output is
    that of the captured [*stack], the trace the result carries.  On an error
    that carried a stack, the text after the message is the one the chain of
    that error gives: the Format output of its [*stack] when its first
    StackTrace node is a [withStack], and nothing when no node of its chain
    has both methods, although the trace is carried. *)
Theorem X10_extended_format (pre : list annotation) (a : annotation)
    (e : errval) (w : world) :
  exists r,
    fst (annotate_all (pre ++ [a]) (Some e) w) = Some r /\
    (message_only a = true -> extended r = Error r) /\
    (message_only a = false ->
       extended r = (Error r ++ tracer_text (Some r))%string /\
       (carries_stack e ->
          tracer_text (Some r) = tracer_text (Some e) /\
          trace_of (Some r) = trace_of (Some e) /\
          (forall y st,
              As stackTracer (Some e) = Some (withStack y st) ->
              extended r = (Error r ++ stack_Format st true (rune_of "v"))%string /\
              trace_of (Some r) = Some (pcs st)) /\
          (As formatTracer (Some e) = None -> extended r = Error r)) /\
       (~ carries_stack e ->
          exists st, tracer_text (Some r) = stack_Format st true (rune_of "v") /\
                     trace_of (Some r) = Some (pcs st))).
Proof.
  destruct (annotate_all_In pre e w) as (y & Ey & _).
  destruct (annotate_layered a y (snd (annotate_all pre (Some e) w)))
    as (r & Er & L).
  assert (E : fst (annotate_all (pre ++ [a]) (Some e) w) = Some r).
  { rewrite annotate_all_app, Ey, annotate_all_cons. exact Er. }
  exists r. split; [exact E|]. split.
  - intros Hm.
    destruct (message_only_run a y (snd (annotate_all pre (Some e) w)) Hm)
      as (p & msg & Ew).
    assert (r = wrapError p msg y) by congruence. subst r. reflexivity.
  - intros Hf. destruct (layered_forcing_formatted a y r L Hf) as (x & ->).
    assert (X : extended (formatted x) =
                (Error (formatted x) ++ tracer_text (Some (formatted x)))%string).
    { unfold tracer_text. rewrite As_formatTracer_formatted. reflexivity. }
    split; [exact X|]. split.
    + intros C.
      destruct (annotate_all_formatTracer (pre ++ [a]) e w C) as (r' & Er' & Hr').
      assert (r' = formatted x) by congruence. subst r'.
      assert (T : tracer_text (Some (formatted x)) = tracer_text (Some e))
        by (unfold tracer_text; now rewrite Hr').
      destruct (annotate_all_capture (pre ++ [a]) e w) as (r' & Er'' & H).
      assert (r' = formatted x) by congruence. subst r'.
      apply carries_stack_As in C as (st0 & A0). rewrite A0 in H.
      destruct H as [Ar _].
      assert (Tr : trace_of (Some (formatted x)) = trace_of (Some e))
        by (unfold trace_of; now rewrite Ar, A0).
      split; [exact T|]. split; [exact Tr|]. split.
      * intros y' st A. rewrite X, T, Tr. unfold tracer_text, trace_of.
        rewrite (As_formatTracer_withStack _ _ _ A), A. now split.
      * intros Hnone. rewrite X, T. unfold tracer_text. rewrite Hnone.
        apply append_empty.
    + intros Hn. apply not_carries_As in Hn.
      destruct (annotate_all_capture (pre ++ [a]) e w) as (r' & Er' & H).
      assert (r' = formatted x) by congruence. subst r'.
      rewrite Hn in H.
      destruct (find forcing (pre ++ [a])) as [a'|] eqn:F.
      * destruct H as (_ & y' & st & A & _). exists st.
        unfold tracer_text, trace_of.
        rewrite (As_formatTracer_withStack _ _ _ A), A. now split.
      * pose proof (find_none _ _ F a) as Hno.
        unfold forcing in Hno. rewrite Hf in Hno.
        discriminate Hno. apply in_or_app. right. now left.
Qed.

End Package.

(** ** Examples and instances *)

Example startup_failed :
  let e0 := New in_load "disk full" (mkWorld 0%N []) in
  let e1 := Wrap sample_table sample_stack_Format sample_pc in_load
              (fst e0) "read config" (snd e0) in
  let e2 := Wrap sample_table sample_stack_Format sample_pc in_main
              (fst e1) "startup failed" (snd e1) in
  option_map (short sample_table sample_stack_Format) (fst e2) =
    Some "startup failed: read config: disk full" /\
  option_map (extended sample_table sample_stack_Format) (fst e2) =
    Some "startup failed: read config: disk full [frames]" /\
  option_map Error (Cause (fst e2)) = Some "disk full" /\
  trace_of (fst e2) = Some in_load /\
  snapshots (snd e2) = [in_load].
Proof. repeat split. Qed.

Example quoted_said :
  let said := ("say " ++ String dquote ("hi" ++ String dquote ""))%string in
  let e := New in_main said (mkWorld 0%N []) in
  option_map (quoted sample_table sample_stack_Format) (fst e) =
    Some (String dquote ("say \" ++ String dquote ("hi\" ++ String dquote (String dquote "")))).
Proof. reflexivity. Qed.

(** C1 as stated fails: after EnsureStack alone, Cause returns the
    [withStack] node and not the original error; after WithMessage and then
    EnsureStack, what Cause returns has neither the identity nor the message
    of the original error. *)
Lemma C1_counterexample :
  let r1 := EnsureStack sample_pc in_main (Some sample_leaf) sample_world in
  let r2 := annotate_all string sample_Sprintf sample_table sample_stack_Format
              sample_pc
              [by_WithMessage string "read config"; by_EnsureStack string in_main]
              (Some sample_leaf) sample_world in
  (exists c, Cause (fst r1) = Some c /\ c <> sample_leaf) /\
  (exists c, Cause (fst r2) = Some c /\ c <> sample_leaf /\
             Error c <> Error sample_leaf).
Proof.
  split.
  - exists (withStack sample_leaf (mkStack 1%N in_main)).
    split; [reflexivity | discriminate].
  - exists (withStack (wrapError 1%N "read config: disk full" sample_leaf)
                      (mkStack 2%N in_main)).
    split; [reflexivity | split; discriminate].
Qed.

Lemma C6_witness :
  let e := withStack sample_leaf (mkStack 1%N in_load) in
  let w := mkWorld 2%N [in_load] in
  carries_stack e /\
  (EnsureStack sample_pc in_main (Some e) w = (Some (formatted e), w) /\
   Unwrap (Some (formatted e)) = Some e /\
   has_Format (formatted e) = true /\
   Error (formatted e) = Error e /\
   As stackTracer (Some (formatted e)) = As stackTracer (Some e)).
Proof.
  intros e w.
  assert (C : carries_stack e).
  { exists e. split; [left; reflexivity | reflexivity]. }
  split; [exact C | exact (C6_EnsureStack_pass_through sample_pc in_main e w C)].
Defined.

Lemma C7_witness :
  in_main <> [] /\
  exists c t, Cause (fst (New in_main "disk full" (mkWorld 0%N []))) = Some c /\
              Error c = "disk full" /\
              StackTrace_method c = Some t /\
              t = in_main /\ t <> [].
Proof.
  assert (H : in_main <> []) by (unfold in_main; discriminate).
  split; [exact H | exact (C7_Cause_New in_main "disk full" (mkWorld 0%N []) H)].
Defined.

Lemma C8_witness :
  let x := formatted (withStack sample_leaf (mkStack 1%N in_main)) in
  produced string sample_Sprintf sample_Errorf sample_table sample_stack_Format
           sample_pc x /\
  quoted sample_table sample_stack_Format x =
    Quote sample_table (short sample_table sample_stack_Format x) /\
  short sample_table sample_stack_Format x = "disk full" /\
  exists body,
    quoted sample_table sample_stack_Format x =
      String dquote (body ++ String dquote "") /\
    well_escaped body = true /\
    unquote body = Some (short sample_table sample_stack_Format x) /\
    (printable_ascii (short sample_table sample_stack_Format x) = true ->
     unbackslash body = short sample_table sample_stack_Format x).
Proof.
  intros x.
  assert (P : produced string sample_Sprintf sample_Errorf sample_table
                       sample_stack_Format sample_pc x).
  { apply produced_New with (cs := in_main) (message := "disk full")
                            (w := mkWorld 0%N []).
    reflexivity. }
  split; [exact P|].
  exact (C8_quoted_verb string sample_Sprintf sample_Errorf sample_table
           sample_stack_Format sample_pc x P).
Defined.

(** C8 as stated fails on the [withStack] node that Cause (and Unwrap) hand
    out: its only Format method is the one promoted from [*stack], which is
    given the stack and not the message, so whatever stack.go makes it write,
    %q writes the same for two errors with different messages and cannot be
    the quoted message of both. *)
Lemma C8_counterexample :
  ~ exists stack_Format : stack -> bool -> rune -> string,
      forall message : string,
        option_map (quoted sample_table stack_Format)
                   (Cause (fst (New in_main message sample_world))) =
        Some (Quote sample_table message).
Proof.
  intros (stack_Format & H).
  assert (C : forall m, Cause (fst (New in_main m sample_world)) =
                        Some (withStack (errorString 1%N m) (mkStack 2%N in_main))).
  { intros m. apply Cause_found. reflexivity. }
  assert (Q : forall m,
             quoted sample_table stack_Format
               (withStack (errorString 1%N m) (mkStack 2%N in_main)) =
             stack_Format (mkStack 2%N in_main) false (rune_of "q"))
    by reflexivity.
  pose proof (H "disk full") as H1. pose proof (H "disk fail") as H2.
  rewrite C in H1, H2. cbn [option_map] in H1, H2. rewrite Q in H1, H2.
  assert (E : Quote sample_table "disk full" = Quote sample_table "disk fail")
    by congruence.
  vm_compute in E. discriminate E.
Qed.

Lemma C2_witness :
  let e := withStack sample_leaf (mkStack 1%N in_load) in
  let w := mkWorld 2%N [in_load] in
  let r := EnsureStack sample_pc in_main (Some e) w in
  let r' := Wrap sample_table sample_stack_Format sample_pc in_main (Some e)
              "read config" w in
  carries_stack e /\
  (As stackTracer (fst r) = As stackTracer (Some e) /\
   trace_of (fst r) = trace_of (Some e) /\
   snapshots (snd r) = snapshots w /\
   As stackTracer (fst r') = As stackTracer (Some e) /\
   trace_of (fst r') = trace_of (Some e) /\
   snapshots (snd r') = snapshots w).
Proof.
  intros e w r r'.
  assert (C : carries_stack e).
  { exists e. split; [left; reflexivity | reflexivity]. }
  split; [exact C|].
  exact (proj2 (proj2 (proj2
           (C2_no_double_capture sample_table sample_stack_Format sample_pc
              in_load in_main (Some sample_leaf) sample_world)))
           e in_main "read config" w C).
Defined.

Lemma C5_witness :
  let top := wrapError 3%N "read config: disk full"
               (formatted (withStack sample_leaf (mkStack 1%N in_load))) in
  let bare := wrapError 1%N "read config: disk full" sample_leaf in
  let ops := [by_WithMessage string "read config";
              by_WithMessagef string "startup failed" []] in
  Cause (Some top) = Some (withStack sample_leaf (mkStack 1%N in_load)) /\
  (Cause (Some bare) = Some (last (chain bare) bare) /\
   Unwrap (Some (last (chain bare) bare)) = None) /\
  Cause (fst (annotate_all string sample_Sprintf sample_table sample_stack_Format
                sample_pc ops (Some sample_leaf) sample_world)) =
    Some sample_leaf.
Proof.
  intros top bare ops. split; [|split].
  - apply (proj1 (C5_Cause_walk string sample_Sprintf sample_table
                    sample_stack_Format sample_pc top)
             [top; formatted (withStack sample_leaf (mkStack 1%N in_load))]
             [sample_leaf]
             (withStack sample_leaf (mkStack 1%N in_load))).
    + reflexivity.
    + intros y [<- | [<- | []]]; reflexivity.
    + reflexivity.
  - apply (proj1 (proj2 (C5_Cause_walk string sample_Sprintf sample_table
                           sample_stack_Format sample_pc bare))).
    intros y [<- | [<- | []]]; reflexivity.
  - apply (proj2 (proj2 (C5_Cause_walk string sample_Sprintf sample_table
                           sample_stack_Format sample_pc sample_leaf))
             ops sample_world); reflexivity.
Defined.

Lemma C1_witness :
  let run := annotate_all string sample_Sprintf sample_table sample_stack_Format
               sample_pc in
  let pre := [by_WithMessage string "read config"] in
  let a := by_EnsureStack string in_load in
  let post := [by_Wrap string in_main "startup failed"] in
  let stacked := withStack sample_leaf (mkStack 1%N in_load) in
  (* only messages on a leaf: Cause is the leaf *)
  Cause (fst (run pre (Some sample_leaf) sample_world)) = Some sample_leaf /\
  (* a stack is forced after a message layer: Cause is the node made there *)
  (exists r y st,
      fst (run (pre ++ a :: post) (Some sample_leaf) sample_world) = Some r /\
      fst (run pre (Some sample_leaf) sample_world) = Some y /\
      In sample_leaf (chain y) /\
      Cause (Some r) = Some (withStack y st) /\
      withStack y st <> sample_leaf /\
      Unwrap (Some (withStack y st)) = Some y /\
      Error (withStack y st) = Error y) /\
  (* a stack is forced first: Cause is the node that wraps the leaf *)
  (exists r st,
      fst (run (a :: post) (Some sample_leaf) sample_world) = Some r /\
      Cause (Some r) = Some (withStack sample_leaf st) /\
      withStack sample_leaf st <> sample_leaf /\
      Unwrap (Some (withStack sample_leaf st)) = Some sample_leaf /\
      Error (withStack sample_leaf st) = Error sample_leaf) /\
  (* the error already carries a stack: Cause is unchanged *)
  (exists r,
      fst (run (pre ++ a :: post) (Some stacked) (mkWorld 2%N [in_load])) = Some r /\
      Cause (Some r) = Cause (Some stacked)).
Proof.
  intros run pre a post stacked.
  assert (N : ~ carries_stack sample_leaf).
  { intros (x & [<- | []] & Hx). discriminate Hx. }
  assert (C : carries_stack stacked).
  { exists stacked. split; [left; reflexivity | reflexivity]. }
  split; [|split; [|split]].
  - destruct (C1_Cause_after_annotations string sample_Sprintf sample_table
                sample_stack_Format sample_pc sample_leaf pre sample_world)
      as (r & Er & _ & _ & Hleaf & _).
    unfold run. rewrite Er. apply Hleaf; reflexivity.
  - destruct (C1_Cause_after_annotations string sample_Sprintf sample_table
                sample_stack_Format sample_pc sample_leaf (pre ++ a :: post)
                sample_world)
      as (r & Er & _ & _ & _ & Hcap & _).
    destruct (Hcap pre post a N eq_refl eq_refl eq_refl)
      as (y & st & Ey & Hy & Hc & Hne & Hu & He).
    exists r, y, st. repeat split; assumption.
  - destruct (C1_Cause_after_annotations string sample_Sprintf sample_table
                sample_stack_Format sample_pc sample_leaf (a :: post)
                sample_world)
      as (r & Er & _ & _ & _ & _ & Hfirst).
    destruct (Hfirst post a N eq_refl eq_refl) as (st & Hc & Hne & Hu & He).
    exists r, st. repeat split; assumption.
  - destruct (C1_Cause_after_annotations string sample_Sprintf sample_table
                sample_stack_Format sample_pc stacked (pre ++ a :: post)
                (mkWorld 2%N [in_load]))
      as (r & Er & _ & Hkept & _).
    exists r. split; [exact Er | apply Hkept; left; exact C].
Defined.

Lemma X1_witness :
  let node := withStack sample_leaf (mkStack 1%N in_main) in
  let w' := mkWorld 2%N [in_main] in
  ~ carries_stack sample_leaf /\
  (EnsureStack sample_pc in_main (Some sample_leaf) sample_world =
     (Some (formatted node), w') /\
   WithStack sample_pc in_main (Some sample_leaf) sample_world =
     (Some (formatted node), w') /\
   trace_of (Some (formatted node)) = Some in_main /\
   Unwrap (Unwrap (Some (formatted node))) = Some sample_leaf /\
   Error (formatted node) = Error sample_leaf /\
   Cause (Some (formatted node)) = Some node).
Proof.
  intros node w'.
  assert (N : ~ carries_stack sample_leaf).
  { intros (x & [<- | []] & Hx). discriminate Hx. }
  split; [exact N|].
  exact (X1_EnsureStack_captures sample_pc in_main sample_leaf sample_world N).
Defined.

Lemma X5_witness :
  let x := formatted (wrapError 2%N "read config: disk full"
                        (formatted (withStack sample_leaf (mkStack 1%N in_main)))) in
  stack_forcing string sample_Sprintf sample_Errorf sample_table
                sample_stack_Format sample_pc x /\
  has_Format x = true /\
  exists c t, Cause (Some x) = Some c /\
              In c (chain x) /\
              StackTrace_method c = Some t /\
              trace_of (Some x) = Some t.
Proof.
  intros x.
  assert (S : stack_forcing string sample_Sprintf sample_Errorf sample_table
                            sample_stack_Format sample_pc x).
  { apply forcing_Wrap with (cs := in_main) (err := Some sample_leaf)
                            (message := "read config") (w := sample_world).
    reflexivity. }
  split; [exact S|].
  exact (X5_forcing_constructors_carry_stack string sample_Sprintf sample_Errorf
           sample_table sample_stack_Format sample_pc x S).
Defined.

Lemma X6_witness :
  let bare := wrapError 1%N "read config: disk full" sample_leaf in
  exists c,
    Cause (Some bare) = Some c /\
    In c (chain bare) /\
    StackTrace_method c = None /\
    c = last (chain bare) bare /\
    forall y, In y (chain bare) -> StackTrace_method y = None.
Proof.
  intros bare. destruct (X6_Cause_in_chain bare) as (c & Hc & Hin & Ht & Hleaf).
  assert (Hnone : StackTrace_method c = None) by (rewrite Ht; reflexivity).
  destruct (Hleaf Hnone) as [Hl Hall].
  exists c. repeat split; assumption.
Defined.

Lemma X7_witness :
  let wrapping (format : string) (args : list string) (p : addr) :=
    wrapError p format (withStack sample_leaf (mkStack 1%N in_load)) in
  let inner := wrapping "read config: disk full" [] 2%N in
  let old := withStack sample_leaf (mkStack 1%N in_load) in
  let node := withStack inner (mkStack 3%N in_main) in
  (In old (chain inner) /\ stackTracer old = true) /\
  Errorf string wrapping in_main "read config: disk full" [] (mkWorld 2%N [in_load]) =
    (Some (formatted node), mkWorld 4%N [in_main; in_load]) /\
  Cause (Some (formatted node)) = Some node /\
  old <> node /\
  In old (chain (formatted node)) /\
  In node (chain (formatted node)).
Proof.
  intros wrapping inner old node.
  assert (H : In old (chain inner) /\ stackTracer old = true).
  { split; [right; left; reflexivity | reflexivity]. }
  split; [exact H|].
  destruct (X7_Errorf_always_captures string wrapping sample_table sample_stack_Format
              in_main "read config: disk full" [] (mkWorld 2%N [in_load]))
    as (Hrun & Hcause & _ & _ & _ & Htwo).
  destruct (Htwo old (proj1 H) (proj2 H)) as (Hne & Hold & Hnode).
  repeat split; assumption.
Defined.

Lemma X8_witness :
  let ops := [by_Wrap string in_load "read config";
              by_EnsureStack string in_main;
              by_WithMessage string "startup failed"] in
  short_v sample_table sample_stack_Format sample_leaf = Error sample_leaf /\
  exists r,
    fst (annotate_all string sample_Sprintf sample_table sample_stack_Format
           sample_pc ops (Some sample_leaf) sample_world) = Some r /\
    Error r = "startup failed: read config: disk full" /\
    short_v sample_table sample_stack_Format r = Error r /\
    (ops <> [] -> short sample_table sample_stack_Format r = Error r).
Proof.
  intros ops. split; [reflexivity|].
  exact (X8_messages_accumulate string sample_Sprintf sample_table
           sample_stack_Format sample_pc ops sample_leaf sample_world eq_refl).
Defined.

Lemma X10_witness :
  let run := annotate_all string sample_Sprintf sample_table sample_stack_Format
               sample_pc in
  let ext := extended sample_table sample_stack_Format in
  let traced := foreign 5%N "traced" (Some in_load) None None in
  let stacked := withStack sample_leaf (mkStack 1%N in_load) in
  (* a stack is captured along the way, Wrap comes last: text and frames *)
  (exists r st,
      fst (run ([by_WithMessage string "read config"] ++
                [by_Wrap string in_main "startup failed"])
             (Some sample_leaf) sample_world) = Some r /\
      ext r = (Error r ++ sample_stack_Format st true (rune_of "v"))%string /\
      trace_of (Some r) = Some (pcs st)) /\
  (* the chain carries a stack, WithMessage comes last: text only *)
  (exists r,
      fst (run ([by_EnsureStack string in_main] ++
                [by_WithMessage string "startup failed"])
             (Some sample_leaf) sample_world) = Some r /\
      ext r = Error r) /\
  (* the error came with a withStack: its stack is printed *)
  (exists r,
      fst (run ([] ++ [by_Wrap string in_main "startup failed"])
             (Some stacked) (mkWorld 2%N [in_load])) = Some r /\
      ext r = (Error r ++ sample_stack_Format (mkStack 1%N in_load) true
                            (rune_of "v"))%string /\
      trace_of (Some r) = Some in_load) /\
  (* the error came with a StackTrace and no Format: carried, not printed *)
  (exists r,
      fst (run ([] ++ [by_Wrap string in_main "startup failed"])
             (Some traced) (mkWorld 6%N [])) = Some r /\
      ext r = Error r /\
      trace_of (Some r) = Some in_load).
Proof.
  intros run ext traced stacked.
  assert (N : ~ carries_stack sample_leaf).
  { intros (x & [<- | []] & Hx). discriminate Hx. }
  assert (Ct : carries_stack traced).
  { exists traced. split; [left; reflexivity | reflexivity]. }
  assert (Cs : carries_stack stacked).
  { exists stacked. split; [left; reflexivity | reflexivity]. }
  split; [|split; [|split]].
  - destruct (X10_extended_format string sample_Sprintf sample_table
                sample_stack_Format sample_pc
                [by_WithMessage string "read config"]
                (by_Wrap string in_main "startup failed")
                sample_leaf sample_world)
      as (r & Er & _ & Hf).
    destruct (Hf eq_refl) as (Hext & _ & Hcap).
    destruct (Hcap N) as (st & Htext & Htrace).
    exists r, st. split; [exact Er|]. split; [|exact Htrace].
    unfold ext. rewrite Hext. f_equal. exact Htext.
  - destruct (X10_extended_format string sample_Sprintf sample_table
                sample_stack_Format sample_pc
                [by_EnsureStack string in_main]
                (by_WithMessage string "startup failed")
                sample_leaf sample_world)
      as (r & Er & Hm & _).
    exists r. split; [exact Er | exact (Hm eq_refl)].
  - destruct (X10_extended_format string sample_Sprintf sample_table
                sample_stack_Format sample_pc []
                (by_Wrap string in_main "startup failed")
                stacked (mkWorld 2%N [in_load]))
      as (r & Er & _ & Hf).
    destruct (Hf eq_refl) as (_ & Hc & _).
    destruct (Hc Cs) as (_ & _ & Hst & _).
    destruct (Hst sample_leaf (mkStack 1%N in_load) eq_refl) as (Hx & Ht).
    exists r. split; [exact Er|]. split; [exact Hx | exact Ht].
  - destruct (X10_extended_format string sample_Sprintf sample_table
                sample_stack_Format sample_pc []
                (by_Wrap string in_main "startup failed")
                traced (mkWorld 6%N []))
      as (r & Er & _ & Hf).
    destruct (Hf eq_refl) as (_ & Hc & _).
    destruct (Hc Ct) as (_ & Htr & _ & Hnone).
    exists r. split; [exact Er|]. split; [exact (Hnone eq_refl) | exact Htr].
Defined.
